(** * react-native-graph: the animated line graph, its curve transitions
      and its pointer selection

    A shallow embedding of [src/AnimatedLineGraph.tsx].  JavaScript numbers
    are idealised: finite values are exact rationals ([Q]); the non-finite
    results of a division by zero ([NaN], [Infinity]) are kept where the
    component can produce them (the selected-index computation).  The
    component is a function of its imports ([createGraphPath],
    [createGraphPathWithGradient], [getXInRange], [getYForX]): they are
    Section variables of [Section AnimatedLineGraph], and the files they
    come from ([./CreateGraphPath], [./GetYForX]) are modelled separately
    from the specification. *)

From Stdlib Require Import List Bool Arith ZArith QArith Qround Qabs Lia Lqa.
Import ListNotations.
Local Open Scope Q_scope.

(* ================================================================== *)
(** ** JavaScript values *)

(** A number that may be non-finite. *)
Inductive JsNum : Type :=
| Fin (q : Q)
| NaN
| PosInf
| NegInf.

(** An integer-valued number, as [Math.round] returns it. *)
Inductive JsInt : Type :=
| IntZ (z : Z)
| INaN
| IPosInf
| INegInf.

(** [a / b] on finite operands. *)
Definition jsDiv (a b : Q) : JsNum :=
  if Qeq_bool b 0 then
    match a ?= 0 with
    | Eq => NaN
    | Gt => PosInf
    | Lt => NegInf
    end
  else Fin (a / b).

(** [a * k] with [k] finite. *)
Definition jsMul (a : JsNum) (k : Q) : JsNum :=
  match a with
  | Fin q => Fin (q * k)
  | NaN => NaN
  | PosInf => match k ?= 0 with Eq => NaN | Gt => PosInf | Lt => NegInf end
  | NegInf => match k ?= 0 with Eq => NaN | Gt => NegInf | Lt => PosInf end
  end.

(** [Math.floor] and [Math.round] on a finite number: [Math.round] rounds
    halves up. *)
Definition mathFloor (q : Q) : Z := Qfloor q.

Definition mathRoundQ (q : Q) : Z := Qfloor (q + (1 # 2)).

Definition mathRound (a : JsNum) : JsInt :=
  match a with
  | Fin q => IntZ (mathRoundQ q)
  | NaN => INaN
  | PosInf => IPosInf
  | NegInf => INegInf
  end.

(** [Math.max(a, k)] and [Math.min(a, k)] with [k] a finite integer. *)
Definition mathMax (a : JsInt) (k : Z) : JsInt :=
  match a with
  | IntZ z => IntZ (Z.max z k)
  | INaN => INaN
  | IPosInf => IPosInf
  | INegInf => IntZ k
  end.

Definition mathMin (a : JsInt) (k : Z) : JsInt :=
  match a with
  | IntZ z => IntZ (Z.min z k)
  | INaN => INaN
  | IPosInf => IntZ k
  | INegInf => INegInf
  end.

(** [Math.max(a, b)] on finite numbers. *)
Definition mathMaxQ (a b : Q) : Q := if Qle_bool a b then b else a.

(** [a === b] on numbers: [NaN] equals nothing, itself included. *)
Definition jsIntEq (a b : JsInt) : bool :=
  match a, b with
  | IntZ x, IntZ y => Z.eqb x y
  | IPosInf, IPosInf => true
  | INegInf, INegInf => true
  | _, _ => false
  end.

(** [r !== v] where [r] is [undefined] or a number. *)
Definition strictNeq (r : option JsInt) (v : JsInt) : bool :=
  match r with
  | None => true
  | Some a => negb (jsIntEq a v)
  end.

(** [xs[i]] for a number [i]: [undefined] unless [i] is an index of [xs]. *)
Definition arrayAt {A : Type} (xs : list A) (i : JsInt) : option A :=
  match i with
  | IntZ z => if (z <? 0)%Z then None else nth_error xs (Z.to_nat z)
  | _ => None
  end.

(** [v || d]: [d] when [v] is [undefined], [0] or [NaN]. *)
Definition jsOr (v : option Q) (d : Q) : Q :=
  match v with
  | Some y => if Qeq_bool y 0 then d else y
  | None => d
  end.

(** [a ?? b]. *)
Definition nullish {A : Type} (a : option A) (b : A) : A :=
  match a with
  | Some x => x
  | None => b
  end.

(** The truthiness of a finite number. *)
Definition truthy (q : Q) : bool := negb (Qeq_bool q 0).

(* ================================================================== *)
(** ** The Skia path (external library [@shopify/react-native-skia])

    A path is its command sequence, as [toCmds] returns it: a verb and the
    points the verb adds.  Only the verbs this repository emits are
    modelled.  [interpolate] and [isInterpolatable] follow Skia's
    [SkPath::interpolate] and [SkPath::isInterpolatable]: the first needs
    equal point counts and keeps the receiver's verbs, the second needs
    equal verb arrays. *)

Definition Point : Type := (Q * Q)%type.

Inductive PathVerb : Type := Move | Line | Cubic.

Inductive PathCommand : Type :=
| MoveCmd (p : Point)
| LineCmd (p : Point)
| CubicCmd (c1 c2 p : Point).

Definition SkPath : Type := list PathCommand.

Module Skia.

Definition Make : SkPath := [].

Definition verbOf (c : PathCommand) : PathVerb :=
  match c with
  | MoveCmd _ => Move
  | LineCmd _ => Line
  | CubicCmd _ _ _ => Cubic
  end.

Definition pointsOf (c : PathCommand) : list Point :=
  match c with
  | MoveCmd p => [p]
  | LineCmd p => [p]
  | CubicCmd c1 c2 p => [c1; c2; p]
  end.

Definition verbs (path : SkPath) : list PathVerb := map verbOf path.

Definition points (path : SkPath) : list Point := flat_map pointsOf path.

Definition toCmds (path : SkPath) : list PathCommand := path.

Definition moveTo (path : SkPath) (x y : Q) : SkPath :=
  path ++ [MoveCmd (x, y)].

(** A segment added to an empty path starts at the origin. *)
Definition injectMoveToIfNeeded (path : SkPath) : SkPath :=
  match path with
  | [] => [MoveCmd (0, 0)]
  | _ => path
  end.

Definition lineTo (path : SkPath) (x y : Q) : SkPath :=
  injectMoveToIfNeeded path ++ [LineCmd (x, y)].

Definition cubicTo (path : SkPath) (x1 y1 x2 y2 x3 y3 : Q) : SkPath :=
  injectMoveToIfNeeded path ++ [CubicCmd (x1, y1) (x2, y2) (x3, y3)].

Definition verb_eqb (a b : PathVerb) : bool :=
  match a, b with
  | Move, Move | Line, Line | Cubic, Cubic => true
  | _, _ => false
  end.

Fixpoint verbs_eqb (a b : list PathVerb) : bool :=
  match a, b with
  | [], [] => true
  | x :: a', y :: b' => verb_eqb x y && verbs_eqb a' b'
  | _, _ => false
  end.

Definition isInterpolatable (this compare : SkPath) : bool :=
  verbs_eqb (verbs this) (verbs compare).

(** [this * weight + ending * (1 - weight)], coordinate by coordinate, in
    exact arithmetic.  Skia computes it in single precision: the two agree
    at weights 0 and 1, where the sum has one non-zero term, and on the
    verbs at any weight; in between Skia's coordinates are within rounding
    of these.  Values of interpolated coordinates are only ever stated at
    weights 0 and 1. *)
Definition lerp (weight : Q) (p e : Point) : Point :=
  (fst p * weight + fst e * (1 - weight),
   snd p * weight + snd e * (1 - weight)).

Fixpoint lerpPoints (weight : Q) (ps es : list Point) : list Point :=
  match ps, es with
  | p :: ps', e :: es' => lerp weight p e :: lerpPoints weight ps' es'
  | _, _ => []
  end.

(** The receiver's verbs over a new point array. *)
Fixpoint refill (cmds : list PathCommand) (ps : list Point)
  : list PathCommand :=
  match cmds with
  | [] => []
  | MoveCmd _ :: rest =>
      match ps with
      | p :: ps' => MoveCmd p :: refill rest ps'
      | _ => []
      end
  | LineCmd _ :: rest =>
      match ps with
      | p :: ps' => LineCmd p :: refill rest ps'
      | _ => []
      end
  | CubicCmd _ _ _ :: rest =>
      match ps with
      | c1 :: c2 :: p :: ps' => CubicCmd c1 c2 p :: refill rest ps'
      | _ => []
      end
  end.

(** [this.interpolate(ending, weight)]: [null] when the point counts
    differ. *)
Definition interpolate (this ending : SkPath) (weight : Q) : option SkPath :=
  if Nat.eqb (length (points this)) (length (points ending)) then
    Some (refill this (lerpPoints weight (points this) (points ending)))
  else None.

End Skia.

(** Two paths are the same curve: the same verbs over numerically equal
    coordinates. *)
Definition point_equiv (p q : Point) : Prop :=
  fst p == fst q /\ snd p == snd q.

Definition cmd_equiv (a b : PathCommand) : Prop :=
  match a, b with
  | MoveCmd p, MoveCmd q => point_equiv p q
  | LineCmd p, LineCmd q => point_equiv p q
  | CubicCmd a1 a2 p, CubicCmd b1 b2 q =>
      point_equiv a1 b1 /\ point_equiv a2 b2 /\ point_equiv p q
  | _, _ => False
  end.

Definition path_equiv (a b : SkPath) : Prop := Forall2 cmd_equiv a b.

(* ================================================================== *)
(** ** The data model of the graph *)

(** A sample: [date] is the timestamp in milliseconds. *)
Record GraphPoint : Type := { date : Z; value : Q }.

Record GraphXRange : Type := { x_min : Z; x_max : Z }.

Record GraphYRange : Type := { y_min : Q; y_max : Q }.

(** The resolved range: both axes are present. *)
Record GraphPathRange : Type := { range_x : GraphXRange; range_y : GraphYRange }.

(** The [range] prop: each axis is optional. *)
Record GraphRange : Type :=
  { override_x : option GraphXRange; override_y : option GraphYRange }.

(** The argument of the path builder; [cfg_range], [cfg_horizontalPadding]
    and [cfg_verticalPadding] are its fields [range], [horizontalPadding]
    and [verticalPadding]. *)
Record GraphPathConfig : Type :=
  { pointsInRange : list GraphPoint;
    cfg_range : GraphPathRange;
    cfg_horizontalPadding : Q;
    cfg_verticalPadding : Q;
    canvasHeight : Z;
    canvasWidth : Z }.

Record GraphPathWithGradient : Type :=
  { path : SkPath; gradientPath : SkPath }.

(** What the component imports from [./CreateGraphPath] and [./GetYForX]. *)
Class GraphImports : Type :=
  { createGraphPath : GraphPathConfig -> SkPath;
    createGraphPathWithGradient : GraphPathConfig -> GraphPathWithGradient;
    getGraphPathRange : list GraphPoint -> option GraphRange -> GraphPathRange;
    getXInRange : Q -> Z -> GraphXRange -> Q;
    getPointsInRange : list GraphPoint -> GraphPathRange -> list GraphPoint;
    getYForX : list PathCommand -> Q -> option Q }.

(* ================================================================== *)
(** ** [./CreateGraphPath] *)

Module CreateGraphPath.

(** Modelled from the spec: the Range Resolver [getGraphPathRange] of
    [CreateGraphPath.ts], which is not among the sources (spec 4.1).  Each
    axis is the override's bounds when supplied, else the first and last
    date, respectively the least and greatest value.  The empty point set
    is outside its contract; it is given the range at the origin. *)
Definition getGraphPathRange (points : list GraphPoint)
  (range : option GraphRange) : GraphPathRange :=
  let first := hd {| date := 0; value := 0 |} points in
  let computed_x :=
    {| x_min := date first; x_max := date (last points first) |} in
  let computed_y :=
    {| y_min := fold_left (fun m p => if Qle_bool m (value p) then m else value p)
                          points (value first);
       y_max := fold_left (fun m p => if Qle_bool m (value p) then value p else m)
                          points (value first) |} in
  {| range_x :=
       match range with
       | Some r => nullish (override_x r) computed_x
       | None => computed_x
       end;
     range_y :=
       match range with
       | Some r => nullish (override_y r) computed_y
       | None => computed_y
       end |}.

(** Modelled from the spec: the Point Filter [getPointsInRange] of
    [CreateGraphPath.ts] (spec 4.2): the points whose date lies in the
    range, bounds included, in their order. *)
Definition getPointsInRange (points : list GraphPoint)
  (range : GraphPathRange) : list GraphPoint :=
  filter (fun p => (x_min (range_x range) <=? date p)%Z
                   && (date p <=? x_max (range_x range))%Z) points.

(** The normalised position on an axis: one half on an axis of zero span
    (spec 4.3, step 1). *)
Definition fraction (v lo hi : Q) : Q :=
  if Qeq_bool hi lo then 1 # 2 else (v - lo) / (hi - lo).

(** Modelled from the spec: [getXInRange] of [CreateGraphPath.ts], the
    horizontal offset of a date inside a drawing width (spec 4.3, step 1,
    without the padding the caller adds). *)
Definition getXInRange (width : Q) (date : Z) (xRange : GraphXRange) : Q :=
  fraction (inject_Z date) (inject_Z (x_min xRange)) (inject_Z (x_max xRange))
  * width.

Definition getYInRange (height : Q) (value : Q) (yRange : GraphYRange) : Q :=
  (1 - fraction value (y_min yRange) (y_max yRange)) * height.

(** A sample in pixel space (spec 4.3, step 1). *)
Definition pixelPoint (cfg : GraphPathConfig) (p : GraphPoint) : Point :=
  (cfg_horizontalPadding cfg
   + getXInRange (inject_Z (canvasWidth cfg) - 2 * cfg_horizontalPadding cfg)
       (date p) (range_x (cfg_range cfg)),
   cfg_verticalPadding cfg
   + getYInRange (inject_Z (canvasHeight cfg) - 2 * cfg_verticalPadding cfg)
       (value p) (range_y (cfg_range cfg))).

Definition padd (a b : Point) : Point := (fst a + fst b, snd a + snd b).

Definition psub (a b : Point) : Point := (fst a - fst b, snd a - snd b).

Definition pscale (k : Q) (a : Point) : Point := (k * fst a, k * snd a).

(** One cubic segment per pair of consecutive points; the tangent at a
    point is estimated from its two neighbours (spec 4.3, step 2). *)
Fixpoint segments (prev : Point) (ps : list Point) : list PathCommand :=
  match ps with
  | p0 :: ((p1 :: rest) as tl) =>
      let p2 := hd p1 rest in
      CubicCmd (padd p0 (pscale (1 # 6) (psub p1 prev)))
               (psub p1 (pscale (1 # 6) (psub p2 p0)))
               p1
      :: segments p0 tl
  | _ => []
  end.

(** Modelled from the spec: the Path Builder [createGraphPath] of
    [CreateGraphPath.ts] (spec 4.3).  No point gives the empty path, one
    point a degenerate straight segment at that point. *)
Definition createGraphPath (cfg : GraphPathConfig) : SkPath :=
  match map (pixelPoint cfg) (pointsInRange cfg) with
  | [] => []
  | [p] => [MoveCmd p; CubicCmd p p p]
  | p0 :: tl => MoveCmd p0 :: segments p0 (p0 :: tl)
  end.

(** Modelled from the spec: [createGraphPathWithGradient] of
    [CreateGraphPath.ts] (spec 4.3, step 3): the stroke path, and the same
    path with two segments appended, down to the canvas baseline at the
    last x and along it back to the first x. *)
Definition createGraphPathWithGradient (cfg : GraphPathConfig)
  : GraphPathWithGradient :=
  let stroke := createGraphPath cfg in
  let pixels := map (pixelPoint cfg) (pointsInRange cfg) in
  {| path := stroke;
     gradientPath :=
       match pixels with
       | [] => []
       | p0 :: _ =>
           stroke ++ [LineCmd (fst (last pixels p0), inject_Z (canvasHeight cfg));
                      LineCmd (fst p0, inject_Z (canvasHeight cfg))]
       end |}.

End CreateGraphPath.

(* ================================================================== *)
(** ** [./GetYForX] *)

Module GetYForX.

Record CubicSegment : Type :=
  { seg_from : Point; seg_c1 : Point; seg_c2 : Point; seg_to : Point }.

(** Walk the commands, tracking the current position, up to the first cubic
    segment whose horizontal span brackets [x]; a segment of zero horizontal
    extent is skipped. *)
Fixpoint selectCurve (cmds : list PathCommand) (from : option Point) (x : Q)
  : option CubicSegment :=
  match cmds with
  | [] => None
  | MoveCmd p :: rest => selectCurve rest (Some p) x
  | LineCmd p :: rest => selectCurve rest (Some p) x
  | CubicCmd c1 c2 p :: rest =>
      match from with
      | Some f =>
          if negb (Qeq_bool (fst f) (fst p))
             && Qle_bool (fst f) x && Qle_bool x (fst p)
          then Some {| seg_from := f; seg_c1 := c1; seg_c2 := c2; seg_to := p |}
          else selectCurve rest (Some p) x
      | None => selectCurve rest (Some p) x
      end
  end.

(** One coordinate of a cubic Bezier curve at parameter [t]. *)
Definition cubicBezier (t a b c d : Q) : Q :=
  (1 - t) * (1 - t) * (1 - t) * a
  + 3 * (1 - t) * (1 - t) * t * b
  + 3 * (1 - t) * t * t * c
  + t * t * t * d.

(** Bisection for the parameter at which the segment reaches [x], the
    segment taken to be increasing in x. *)
Fixpoint solveT (steps : nat) (s : CubicSegment) (x lo hi : Q) : Q :=
  let mid := Qred ((lo + hi) / 2) in
  match steps with
  | O => mid
  | S steps' =>
      if Qle_bool x (cubicBezier mid (fst (seg_from s)) (fst (seg_c1 s))
                       (fst (seg_c2 s)) (fst (seg_to s)))
      then solveT steps' s x lo mid
      else solveT steps' s x mid hi
  end.

Definition precisionSteps : nat := 16.

Definition cubicBezierYForX (x : Q) (s : CubicSegment) : Q :=
  let t := solveT precisionSteps s x 0 1 in
  cubicBezier t (snd (seg_from s)) (snd (seg_c1 s))
    (snd (seg_c2 s)) (snd (seg_to s)).

(** Modelled from the spec: the Inverse Sampler [getYForX] of [GetYForX.ts],
    which is not among the sources (spec 4.4): the height of the curve at
    [x], or no value when no segment brackets [x]. *)
Definition getYForX (cmds : list PathCommand) (x : Q) : option Q :=
  match selectCurve cmds None x with
  | Some s => Some (cubicBezierYForX x s)
  | None => None
  end.

(** The horizontal extent of a curve: the least and greatest x among the
    points the curve passes through (the end points of its commands). *)
Definition onCurve (c : PathCommand) : Point :=
  match c with
  | MoveCmd p => p
  | LineCmd p => p
  | CubicCmd _ _ p => p
  end.

Definition outsideExtent (cmds : list PathCommand) (x : Q) : bool :=
  forallb (fun c => negb (Qle_bool (fst (onCurve c)) x)) cmds
  || forallb (fun c => negb (Qle_bool x (fst (onCurve c)))) cmds.

End GetYForX.

(** The imports as the specification describes them. *)
Definition SpecImports : GraphImports :=
  {| createGraphPath := CreateGraphPath.createGraphPath;
     createGraphPathWithGradient := CreateGraphPath.createGraphPathWithGradient;
     getGraphPathRange := CreateGraphPath.getGraphPathRange;
     getXInRange := CreateGraphPath.getXInRange;
     getPointsInRange := CreateGraphPath.getPointsInRange;
     getYForX := GetYForX.getYForX |}.

(* ================================================================== *)
(** ** The component: props and mutable cells *)

(** The props the modelled code reads.  [shouldFillGradient] is
    [gradientFillColors != null]; [onPointSelected] tells whether the
    callback was supplied. *)
Record AnimatedLineGraphProps : Type :=
  { allPoints : list (list GraphPoint);
    range : option GraphRange;
    horizontalPadding : Q;
    verticalPadding : Q;
    shouldFillGradient : bool;
    onPointSelected : bool }.

(** One in-flight transition, the content of a [pathsValues] cell. *)
Record CurvePair : Type := { from : option SkPath; to : option SkPath }.

(** The cells the hooks allocate.  An array of per-series cells is a store
    indexed by the series index: the arrays are allocated once per series
    and only their cells are written.  [gradientPaths_0] is the property
    ["0"] that the rebuild writes on the [gradientPaths] value object, kept
    as a plain object keeps it (nothing that runs reads it); [selected]
    records the calls made to [onPointSelected], oldest first. *)
Record GraphState : Type :=
  { pathsValues : nat -> CurvePair;
    gradientPaths : CurvePair;
    gradientPaths_0 : option SkPath;
    commands : nat -> list PathCommand;
    interpolateProgresses : nat -> Q;
    pointSelectedIndex : option JsInt;
    circleXs : nat -> Q;
    circleYs : nat -> Q;
    pathEnds : nat -> JsNum;
    selected : list (GraphPoint * nat) }.

Definition initialState : GraphState :=
  {| pathsValues := fun _ => {| from := None; to := None |};
     gradientPaths := {| from := None; to := None |};
     gradientPaths_0 := None;
     commands := fun _ => [];
     interpolateProgresses := fun _ => 0;
     pointSelectedIndex := None;
     circleXs := fun _ => 0;
     circleYs := fun _ => 0;
     pathEnds := fun _ => Fin 1;
     selected := [] |}.

(** [cells[index] = v]. *)
Definition setCell {A : Type} (cells : nat -> A) (index : nat) (v : A)
  : nat -> A :=
  fun i => if Nat.eqb i index then v else cells i.

Definition with_pathsValues (st : GraphState) (v : nat -> CurvePair) :=
  {| pathsValues := v; gradientPaths := gradientPaths st;
     gradientPaths_0 := gradientPaths_0 st; commands := commands st;
     interpolateProgresses := interpolateProgresses st;
     pointSelectedIndex := pointSelectedIndex st; circleXs := circleXs st;
     circleYs := circleYs st; pathEnds := pathEnds st;
     selected := selected st |}.

Definition with_gradientPaths_0 (st : GraphState) (v : option SkPath) :=
  {| pathsValues := pathsValues st; gradientPaths := gradientPaths st;
     gradientPaths_0 := v; commands := commands st;
     interpolateProgresses := interpolateProgresses st;
     pointSelectedIndex := pointSelectedIndex st; circleXs := circleXs st;
     circleYs := circleYs st; pathEnds := pathEnds st;
     selected := selected st |}.

Definition with_commands (st : GraphState) (v : nat -> list PathCommand) :=
  {| pathsValues := pathsValues st; gradientPaths := gradientPaths st;
     gradientPaths_0 := gradientPaths_0 st; commands := v;
     interpolateProgresses := interpolateProgresses st;
     pointSelectedIndex := pointSelectedIndex st; circleXs := circleXs st;
     circleYs := circleYs st; pathEnds := pathEnds st;
     selected := selected st |}.

Definition with_interpolateProgresses (st : GraphState) (v : nat -> Q) :=
  {| pathsValues := pathsValues st; gradientPaths := gradientPaths st;
     gradientPaths_0 := gradientPaths_0 st; commands := commands st;
     interpolateProgresses := v;
     pointSelectedIndex := pointSelectedIndex st; circleXs := circleXs st;
     circleYs := circleYs st; pathEnds := pathEnds st;
     selected := selected st |}.

Definition with_pointSelectedIndex (st : GraphState) (v : option JsInt) :=
  {| pathsValues := pathsValues st; gradientPaths := gradientPaths st;
     gradientPaths_0 := gradientPaths_0 st; commands := commands st;
     interpolateProgresses := interpolateProgresses st;
     pointSelectedIndex := v; circleXs := circleXs st;
     circleYs := circleYs st; pathEnds := pathEnds st;
     selected := selected st |}.

Definition with_circle (st : GraphState) (xs ys : nat -> Q) :=
  {| pathsValues := pathsValues st; gradientPaths := gradientPaths st;
     gradientPaths_0 := gradientPaths_0 st; commands := commands st;
     interpolateProgresses := interpolateProgresses st;
     pointSelectedIndex := pointSelectedIndex st; circleXs := xs;
     circleYs := ys; pathEnds := pathEnds st;
     selected := selected st |}.

Definition with_pathEnds (st : GraphState) (v : nat -> JsNum) :=
  {| pathsValues := pathsValues st; gradientPaths := gradientPaths st;
     gradientPaths_0 := gradientPaths_0 st; commands := commands st;
     interpolateProgresses := interpolateProgresses st;
     pointSelectedIndex := pointSelectedIndex st; circleXs := circleXs st;
     circleYs := circleYs st; pathEnds := v;
     selected := selected st |}.

Definition with_selected (st : GraphState) (v : list (GraphPoint * nat)) :=
  {| pathsValues := pathsValues st; gradientPaths := gradientPaths st;
     gradientPaths_0 := gradientPaths_0 st; commands := commands st;
     interpolateProgresses := interpolateProgresses st;
     pointSelectedIndex := pointSelectedIndex st; circleXs := circleXs st;
     circleYs := circleYs st; pathEnds := pathEnds st;
     selected := v |}.

(** How a piece of the component ends: it returns, or a [TypeError] is
    raised; either way the cells are as the code left them. *)
Inductive Outcome (A : Type) : Type :=
| Returned (a : A)
| TypeError (st : GraphState).

Arguments Returned {A} a.
Arguments TypeError {A} st.

Definition bind {A B : Type} (m : Outcome A) (k : A -> Outcome B) : Outcome B :=
  match m with
  | Returned a => k a
  | TypeError st => TypeError st
  end.

Notation "x <- m ;; k" := (bind m (fun x => k))
  (at level 61, m at next level, right associativity).

(** [xs.map((x, index) => f x index)]. *)
Fixpoint mapiFrom {A B : Type} (f : A -> nat -> B) (index : nat) (xs : list A)
  : list B :=
  match xs with
  | [] => []
  | x :: rest => f x index :: mapiFrom f (S index) rest
  end.

Definition mapi {A B : Type} (f : A -> nat -> B) (xs : list A) : list B :=
  mapiFrom f 0 xs.

Definition Qltb (a b : Q) : bool := negb (Qle_bool b a).

Definition noRange : GraphPathRange :=
  {| range_x := {| x_min := 0; x_max := 0 |};
     range_y := {| y_min := 0; y_max := 0 |} |}.

(* ================================================================== *)
(** ** [AnimatedLineGraph] *)

Section AnimatedLineGraph.

Context {imports : GraphImports}.
Variable props : AnimatedLineGraphProps.
(** The measured layout, [useState(0)] until [onLayout] runs. *)
Variables width height : Z.

(** [straightLine]: the loop [for (let i = 0; i < width - 1; i += 2)]. *)
Fixpoint straightLineLoop (fuel : nat) (i : Z) (path : SkPath) : SkPath :=
  match fuel with
  | O => path
  | S fuel' =>
      if (i <? width - 1)%Z then
        let x := inject_Z i in
        let y := inject_Z height / 2 in
        straightLineLoop fuel' (i + 2)%Z (Skia.cubicTo path x y x y x y)
      else path
  end.

Definition straightLine : SkPath :=
  let path := Skia.Make in
  let path := Skia.moveTo path 0 (inject_Z height / 2) in
  straightLineLoop (Z.to_nat width) 0%Z path.

Definition pathRanges : list GraphPathRange :=
  mapi (fun _points index =>
          getGraphPathRange (nth index (allPoints props) []) (range props))
       (allPoints props).

Definition pointsInRanges : list (list GraphPoint) :=
  mapi (fun _points index =>
          getPointsInRange (nth index (allPoints props) [])
                           (nth index pathRanges noRange))
       (allPoints props).

Definition drawingWidth : Q :=
  inject_Z width - 2 * horizontalPadding props.

Definition lineWidths : list Q :=
  mapi (fun _points index =>
          let points := nth index pointsInRanges [] in
          match nth_error points (length points - 1) with
          | None => drawingWidth
          | Some lastPoint =>
              mathMaxQ (getXInRange drawingWidth (date lastPoint)
                          (range_x (nth index pathRanges noRange))) 0
          end)
       (allPoints props).

Definition indicatorXs : list Q :=
  map (fun lineWidth => inject_Z (mathFloor lineWidth) + horizontalPadding props)
      lineWidths.

(** [indicatorYs[index].value]. *)
Definition indicatorYs (st : GraphState) : list Q :=
  mapi (fun _command index =>
          jsOr (getYForX (commands st index) (nth index indicatorXs 0)) 0)
       (allPoints props).

(** *** The rebuild effect *)

Definition createGraphPathProps : list GraphPathConfig :=
  mapi (fun _points index =>
          {| pointsInRange := nth index pointsInRanges [];
             cfg_range := nth index pathRanges noRange;
             cfg_horizontalPadding := horizontalPadding props;
             cfg_verticalPadding := verticalPadding props;
             canvasHeight := height;
             canvasWidth := width |})
       (allPoints props).

(** The local array [paths]: [Array(n).fill(0)], so an entry is the number
    [0] ([None]) until a path is stored in it.  In gradient mode only entry
    [0] is stored, and the gradient path goes to the property ["0"] of the
    [gradientPaths] value object; [createGraphPathWithGradient(undefined)],
    when there is no series, raises on reading its argument. *)
Definition buildPaths (st : GraphState)
  : Outcome (list (option SkPath) * GraphState) :=
  let paths := repeat (@None SkPath) (length (allPoints props)) in
  if shouldFillGradient props then
    match nth_error createGraphPathProps 0 with
    | None => TypeError st
    | Some props0 =>
        let r := createGraphPathWithGradient props0 in
        Returned (Some (path r) :: tl paths,
                  with_gradientPaths_0 st (Some (gradientPath r)))
    end
  else
    Returned (map (fun props_i => Some (createGraphPath props_i))
                  createGraphPathProps, st).

(** [paths.forEach((path, index) => commands[index].value =
    paths[index].toCmds())]: the number [0] has no [toCmds]. *)
Fixpoint setCommands (paths : list (option SkPath)) (index : nat)
  (st : GraphState) : Outcome GraphState :=
  match paths with
  | [] => Returned st
  | Some p :: rest =>
      setCommands rest (S index)
        (with_commands st (setCell (commands st) index (Skia.toCmds p)))
  | None :: _ => TypeError st
  end.

(** The block guarded by [_gradientPaths[0] != null].  [_gradientPaths] is
    [Array(n).fill(null)] and is never written; were an entry a path, its
    [current] would be [undefined] and reading [previous.to] would raise. *)
Definition publishGradient (st : GraphState) : Outcome GraphState :=
  let _gradientPaths := repeat (@None SkPath) (length (allPoints props)) in
  match nth_error _gradientPaths 0 with
  | Some (Some _) => TypeError st
  | _ => Returned st
  end.

(** One entry of [fromValues] after the [previousValues.forEach]. *)
Definition fromValue (previousValue : CurvePair) (progress : Q) : SkPath :=
  let fromValue0 := nullish (to previousValue) straightLine in
  match from previousValue with
  | Some previousFrom =>
      if Qltb progress 1 then
        nullish (Skia.interpolate fromValue0 previousFrom progress) fromValue0
      else fromValue0
  | None => fromValue0
  end.

Definition fromValues (st : GraphState) : list SkPath :=
  mapi (fun _points index =>
          fromValue (pathsValues st index) (interpolateProgresses st index))
       (allPoints props).

(** The pair published for one series. *)
Definition nextPair (p fromV : SkPath) : CurvePair :=
  if Skia.isInterpolatable p fromV
  then {| from := Some fromV; to := Some p |}
  else {| from := Some p; to := Some p |}.

(** [paths.forEach((path, index) => ... pathsValues[index].current = ...)]. *)
Fixpoint publishPaths (paths : list (option SkPath)) (froms : list SkPath)
  (index : nat) (st : GraphState) : Outcome GraphState :=
  match paths, froms with
  | [], _ => Returned st
  | Some p :: rest, fromV :: froms' =>
      publishPaths rest froms' (S index)
        (with_pathsValues st (setCell (pathsValues st) index (nextPair p fromV)))
  | _, _ => TypeError st
  end.

(** The body of the rebuild [useEffect].  The [commandsChanged] counters,
    which only gate the indicator's visibility, are left out.  The closing
    [runSpring(interpolateProgresses[index], { from: 0, to: 1 }, ...)] calls
    attach an animation to each progress and write no cell: when the effect
    returns every progress still holds the value it had, and it is the
    driver that moves it, from its next frame on. *)
Definition rebuild (st : GraphState) : Outcome GraphState :=
  if (height <? 1)%Z || (width <? 1)%Z then Returned st
  else
    let emptyPoints :=
      filter (fun points => (length points <? 1)%nat) pointsInRanges in
    if (0 <? length emptyPoints)%nat then Returned st
    else
      built <- buildPaths st ;;
      let paths := fst built in
      st <- setCommands paths 0 (snd built) ;;
      st <- publishGradient st ;;
      let froms := fromValues st in
      st <- publishPaths paths froms 0 st ;;
      Returned st.

(** *** What the canvas draws *)

(** [paths[index]], the computed value: the body of its callback, which
    reads the cells when it runs and [straightLine] from the render that
    created it; [width] and [height] are the layout of that render.  The
    dependencies of the stroke's computed value never change, so its
    callback stays the first render's (see [drawnPaths]); the gradient's
    dependency is a fresh array at every render, so [gradientPathValue] is
    created anew with the current layout. *)
Definition paths (st : GraphState) (index : nat) : option SkPath :=
  let fromP := nullish (from (pathsValues st index)) straightLine in
  let toP := nullish (to (pathsValues st index)) straightLine in
  Skia.interpolate toP fromP (interpolateProgresses st index).

Definition gradientPathValue (st : GraphState) : option SkPath :=
  let fromP := nullish (from (gradientPaths st)) straightLine in
  let toP := nullish (to (gradientPaths st)) straightLine in
  Skia.interpolate toP fromP (interpolateProgresses st 0%nat).

(** *** The pointer *)

(** [pointIndex] inside [setFingerPoints[index]]. *)
Definition pointIndexOf (index : nat) (fingerX : Q) (lastPoint : GraphPoint)
  : JsInt :=
  let points := nth index pointsInRanges [] in
  let fingerXInRange := mathMaxQ (fingerX - horizontalPadding props) 0 in
  let idx :=
    mathRound
      (jsMul
         (jsDiv fingerXInRange
            (getXInRange drawingWidth (date lastPoint)
               (range_x (nth index pathRanges noRange))))
         (inject_Z (Z.of_nat (length points) - 1))) in
  mathMin (mathMax idx 0) (Z.of_nat (length points) - 1).

(** [setFingerPoints[index](fingerX)]: reading [.date] of the last point
    raises when the series has no point in range. *)
Definition setFingerPoints (index : nat) (fingerX : Q) (st : GraphState)
  : Outcome GraphState :=
  let points := nth index pointsInRanges [] in
  match nth_error points (length points - 1) with
  | None => TypeError st
  | Some lastPoint =>
      let pointIndex := pointIndexOf index fingerX lastPoint in
      if strictNeq (pointSelectedIndex st) pointIndex then
        let dataPoint := arrayAt points pointIndex in
        let st := with_pointSelectedIndex st (Some pointIndex) in
        match dataPoint with
        | Some dp =>
            if onPointSelected props
            then Returned (with_selected st (selected st ++ [(dp, index)]))
            else Returned st
        | None => Returned st
        end
      else Returned st
  end.

(** [setFingerXs[index](fingerX)], a worklet; [isActive] is the gesture's
    shared value. *)
Definition setFingerXs (isActive : bool) (index : nat) (fingerX : Q)
  (st : GraphState) : GraphState :=
  let y := getYForX (commands st index) fingerX in
  let st :=
    match y with
    | Some y' =>
        with_circle st (setCell (circleXs st) index fingerX)
                       (setCell (circleYs st) index y')
    | None => st
    end in
  if isActive
  then with_pathEnds st
         (setCell (pathEnds st) index (jsDiv fingerX (inject_Z width)))
  else st.

Definition stateOf (o : Outcome GraphState) : GraphState :=
  match o with
  | Returned st => st
  | TypeError st => st
  end.

(** The reaction to the pointer's x: for every series the worklet, then
    the selection on the JS thread ([runOnJS]; an error raised there ends
    that call only). *)
Definition onFingerX (isActive : bool) (fingerX : Q) (st : GraphState)
  : GraphState :=
  if isActive || truthy fingerX then
    fold_left
      (fun st index =>
         stateOf (setFingerPoints index fingerX
                    (setFingerXs isActive index fingerX st)))
      (seq 0 (length (allPoints props))) st
  else st.

End AnimatedLineGraph.

(* ================================================================== *)
(** ** Notions the properties are stated with

    These are not code of the component: they name what the properties
    speak of. *)

Section Notions.

Context {imports : GraphImports}.
Variable props : AnimatedLineGraphProps.
Variables width height : Z.

(** The stroke path the effect builds from a series' configuration: with
    gradient fill it is the [path] half of [createGraphPathWithGradient]. *)
Definition freshPath (cfg : GraphPathConfig) : SkPath :=
  if shouldFillGradient props
  then path (createGraphPathWithGradient cfg)
  else createGraphPath cfg.

(** The two guards of the effect pass: the view is measured, and no series
    is empty. *)
Definition measured : Prop := (1 <= height)%Z /\ (1 <= width)%Z.

Definition noEmptySeries : bool :=
  forallb (fun points => negb (length points <? 1)%nat) (pointsInRanges props).

(** The sample of a series that lies nearest to the pointer on the canvas:
    the index of the least distance between the pointer's x and the
    samples' pixel x, the first one on a tie. *)
Fixpoint argminFrom (ds : list Q) (i best : nat) (bestD : Q) : nat :=
  match ds with
  | [] => best
  | d :: rest =>
      if Qltb d bestD then argminFrom rest (S i) i d
      else argminFrom rest (S i) best bestD
  end.

Definition nearestSample (index : nat) (fingerX : Q) : option nat :=
  let pixelX p :=
    horizontalPadding props
    + getXInRange (drawingWidth props width) (date p)
        (range_x (nth index (pathRanges props) noRange)) in
  match nth index (pointsInRanges props) [] with
  | [] => None
  | p0 :: rest =>
      Some (argminFrom (map (fun p => Qabs (fingerX - pixelX p)) rest) 1 0
              (Qabs (fingerX - pixelX p0)))
  end.

End Notions.

(** The stroke path the canvas receives: the callback of [paths] as the
    first render created it, when [width] and [height] were still the 0 of
    [useState(0)]. *)
Definition drawnPaths (st : GraphState) (index : nat) : option SkPath :=
  paths 0 0 st index.

(** The segment the loop of [straightLine] adds at [i], and the number of
    iterations the loop makes from [i]. *)
Definition flatSegment (height i : Z) : PathCommand :=
  let x := inject_Z i in
  let y := inject_Z height / 2 in
  CubicCmd (x, y) (x, y) (x, y).

Definition iterationsFrom (width i : Z) : nat := Z.to_nat ((width - i) / 2).

(* ================================================================== *)
(** ** [AnimatedLineGraph]: the indicator, the gradient stops, the effects

    The rest of the component that is arithmetic or cell updates; the
    animation drivers ([withSpring], [withRepeat], ...) are outside it. *)

Definition INDICATOR_RADIUS : Q := 7.

Definition INDICATOR_BORDER_MULTIPLIER : Q := 13 # 10.

Definition INDICATOR_PULSE_BLUR_RADIUS_SMALL : Q :=
  INDICATOR_RADIUS * INDICATOR_BORDER_MULTIPLIER.

Definition INDICATOR_PULSE_BLUR_RADIUS_BIG : Q :=
  INDICATOR_RADIUS * INDICATOR_BORDER_MULTIPLIER + 20.

(** Skia's [mix(value, x, y)]. *)
Definition mix (value x y : Q) : Q := x * (1 - value) + y * value.

(** [pulseTrigger]: [isActive.value ? 1 : 0]. *)
Definition pulseTrigger (isActive : bool) : Q := if isActive then 1 else 0.

Definition indicatorPulseRadius (isActive : bool) (indicatorPulseAnimation : Q)
  : Q :=
  if Qeq_bool (pulseTrigger isActive) 0 then
    mix indicatorPulseAnimation INDICATOR_PULSE_BLUR_RADIUS_SMALL
      INDICATOR_PULSE_BLUR_RADIUS_BIG
  else 0.

Definition indicatorPulseOpacity (isActive : bool) (indicatorPulseAnimation : Q)
  : Q :=
  if Qeq_bool (pulseTrigger isActive) 0 then mix indicatorPulseAnimation 1 0
  else 0.

(** [Math.min(k, a)] with [k] finite. *)
Definition mathMinNum (k : Q) (a : JsNum) : JsNum :=
  match a with
  | Fin q => Fin (if Qle_bool k q then k else q)
  | NaN => NaN
  | PosInf => Fin k
  | NegInf => NegInf
  end.

(** [positions[index].value]: the stops of the stroke's gradient. *)
Definition positions (st : GraphState) (index : nat) : list JsNum :=
  [Fin 0;
   mathMinNum (15 # 100) (pathEnds st index);
   pathEnds st index;
   pathEnds st index;
   Fin 1].

(** The counters [commandsChanged], one per series, as a render sees them.
    The rebuild calls [setCommandsChanged[index](_commandsChanged[index] + 1)]
    where [_commandsChanged] is the counter itself: a number has no indexed
    property, so the operand is [undefined]. *)
Definition numberProperty (n : JsNum) (index : nat) : option JsNum := None.

(** [v + 1] where [v] is [undefined] or a number. *)
Definition plusOne (v : option JsNum) : JsNum :=
  match v with
  | None => NaN
  | Some (Fin q) => Fin (q + 1)
  | Some other => other
  end.

Definition bumpCommandsChanged (commandsChanged : list JsNum) : list JsNum :=
  mapi (fun _commandsChanged index =>
          plusOne (numberProperty _commandsChanged index))
       commandsChanged.

(** [a > 0]. *)
Definition greaterThanZero (a : JsNum) : bool :=
  match a with
  | Fin q => Qltb 0 q
  | PosInf => true
  | NaN | NegInf => false
  end.

Definition indicatorsVisible (enableIndicator : bool)
  (commandsChanged : list JsNum) : list bool :=
  map (fun changed => enableIndicator && greaterThanZero changed)
      commandsChanged.

Section AnimatedLineGraphEffects.

Context {imports : GraphImports}.
Variable props : AnimatedLineGraphProps.

(** The effect that restores [pathEnds] once a series has points and
    commands. *)
Definition resetPathEnds (st : GraphState) : GraphState :=
  fold_left
    (fun st index =>
       if negb (length (nth index (pointsInRanges props) []) =? 0)%nat
          && negb (length (commands st index) =? 0)%nat
       then with_pathEnds st (setCell (pathEnds st) index (Fin 1))
       else st)
    (seq 0 (length (allPoints props))) st.

End AnimatedLineGraphEffects.

(* ================================================================== *)
(** ** [StaticLineGraph] *)

Record StaticLineGraphProps : Type :=
  { static_points : list (list GraphPoint);
    static_range : option GraphRange;
    lineThickness : Q }.

Section StaticLineGraph.

Context {imports : GraphImports}.
Variable props : StaticLineGraphProps.
Variables width height : Z.

(** The argument of [createGraphPath]; [allPoints[0]] is [undefined] when
    there is no series, and what the imports do with it is theirs. *)
Definition staticConfig : option GraphPathConfig :=
  match static_points props with
  | [] => None
  | points0 :: _ =>
      let pathRange := getGraphPathRange points0 (static_range props) in
      let pointsInRange := getPointsInRange points0 pathRange in
      Some {| pointsInRange := pointsInRange;
              cfg_range := pathRange;
              cfg_horizontalPadding := lineThickness props;
              cfg_verticalPadding := lineThickness props;
              canvasHeight := height;
              canvasWidth := width |}
  end.

Definition staticPath : option SkPath := option_map createGraphPath staticConfig.

End StaticLineGraph.

(* ================================================================== *)
(** ** The states the component can be in *)

(** The cells of the curves and the cells of the pointer. *)
Definition curveCells (st : GraphState) :=
  (pathsValues st, gradientPaths st, commands st, interpolateProgresses st).

Definition pointerCells (st : GraphState) :=
  (circleXs st, circleYs st, pathEnds st, pointSelectedIndex st, selected st).

(** A pair is well formed: absent altogether, or two curves of the same
    structure. *)
Definition pairOk (pair : CurvePair) : bool :=
  match from pair, to pair with
  | Some f, Some t => Skia.isInterpolatable t f
  | None, None => true
  | _, _ => false
  end.

(** What happens to the cells: a rebuild (however it ends, with whatever
    props and layout the render has), the driver advancing the progresses,
    a pointer reaction, the effect restoring [pathEnds]. *)
Inductive Reachable {imports : GraphImports} : GraphState -> Prop :=
| reach_initial : Reachable initialState
| reach_rebuild props width height st :
    Reachable st -> Reachable (stateOf (rebuild props width height st))
| reach_driver progresses st :
    Reachable st -> Reachable (with_interpolateProgresses st progresses)
| reach_pointer props width isActive fingerX st :
    Reachable st -> Reachable (onFingerX props width isActive fingerX st)
| reach_reset props st :
    Reachable st -> Reachable (resetPathEnds props st).

(* ================================================================== *)
(** ** Concrete data *)

Module Examples.

Definition sample (d : Z) (v : Q) : GraphPoint := {| date := d; value := v |}.

Definition threePoints : list GraphPoint :=
  [sample 0 10; sample 1 20; sample 2 10].

Definition threeOthers : list GraphPoint :=
  [sample 0 20; sample 1 10; sample 2 20].

Definition fourPoints : list GraphPoint :=
  [sample 0 10; sample 1 20; sample 2 10; sample 3 20].

Definition fivePoints : list GraphPoint :=
  [sample 0 1; sample 1 2; sample 2 3; sample 3 2; sample 4 1].

(** A graph of the given series on a canvas without padding. *)
Definition graphOf (series : list (list GraphPoint)) (gradient : bool)
  : AnimatedLineGraphProps :=
  {| allPoints := series;
     range := None;
     horizontalPadding := 0;
     verticalPadding := 0;
     shouldFillGradient := gradient;
     onPointSelected := true |}.

(** The explicit window lies past every sample of the data. *)
Definition windowPastData : AnimatedLineGraphProps :=
  {| allPoints := [threePoints];
     range := Some {| override_x := Some {| x_min := 10; x_max := 20 |};
                      override_y := None |};
     horizontalPadding := 0;
     verticalPadding := 0;
     shouldFillGradient := false;
     onPointSelected := true |}.

(** The builder's argument for a single series drawn over its own range. *)
Definition configOf (series : list GraphPoint) (width height : Z)
  : GraphPathConfig :=
  {| pointsInRange := series;
     cfg_range := CreateGraphPath.getGraphPathRange series None;
     cfg_horizontalPadding := 0;
     cfg_verticalPadding := 0;
     canvasHeight := height;
     canvasWidth := width |}.

(** The driver has advanced every progress to [p]. *)
Definition atProgress (p : Q) (st : GraphState) : GraphState :=
  with_interpolateProgresses st (fun _ => p).

(** The cells after a graph of [threePoints] was drawn, its data replaced
    by [threeOthers], and that transition is half way. *)
Definition midTransition : GraphState :=
  atProgress (1 # 2)
    (stateOf (rebuild (imports := SpecImports) (graphOf [threeOthers] false) 100 50
       (atProgress 1
          (stateOf (rebuild (imports := SpecImports) (graphOf [threePoints] false)
                      100 50 initialState))))).

(** A window that ends after the last sample, on a graph with the padding
    of an enabled indicator. *)
Definition windowBeyondData : AnimatedLineGraphProps :=
  {| allPoints := [threePoints];
     range := Some {| override_x := Some {| x_min := 0; x_max := 3 |};
                      override_y := None |};
     horizontalPadding := 10;
     verticalPadding := 0;
     shouldFillGradient := false;
     onPointSelected := true |}.

(** The cells after a pan to the middle of a graph of two series. *)
Definition panned : GraphState :=
  onFingerX (imports := SpecImports) (graphOf [threePoints; fivePoints] false)
    100 true 50 initialState.

(** The cells after the pointer selected the last sample of a single
    three-point series. *)
Definition selectedAtRightEdge : GraphState :=
  stateOf (setFingerPoints (imports := SpecImports) (graphOf [threePoints] false)
             100 0%nat 100 initialState).

End Examples.

(* ================================================================== *)
(** ** Lists with indices *)

Lemma mapiFrom_length {A B : Type} (f : A -> nat -> B) (xs : list A) :
  forall start, length (mapiFrom f start xs) = length xs.
Proof.
  induction xs as [|x xs IH]; intros start; simpl; [reflexivity|].
  now rewrite IH.
Qed.

Lemma mapi_length {A B : Type} (f : A -> nat -> B) (xs : list A) :
  length (mapi f xs) = length xs.
Proof. apply mapiFrom_length. Qed.

Lemma mapiFrom_nth_error {A B : Type} (f : A -> nat -> B) (xs : list A) :
  forall start i,
    nth_error (mapiFrom f start xs) i =
    option_map (fun x => f x (start + i)%nat) (nth_error xs i).
Proof.
  induction xs as [|x xs IH]; intros start i.
  - now destruct i.
  - destruct i as [|i]; simpl.
    + now rewrite Nat.add_0_r.
    + rewrite IH. now rewrite Nat.add_succ_r.
Qed.

Lemma mapi_nth_error {A B : Type} (f : A -> nat -> B) (xs : list A) (i : nat) :
  nth_error (mapi f xs) i = option_map (fun x => f x i) (nth_error xs i).
Proof. unfold mapi. now rewrite mapiFrom_nth_error. Qed.

Lemma setCell_same {A : Type} (cells : nat -> A) (index : nat) (v : A) :
  setCell cells index v index = v.
Proof. unfold setCell. now rewrite Nat.eqb_refl. Qed.

Lemma setCell_other {A : Type} (cells : nat -> A) (index i : nat) (v : A) :
  i <> index -> setCell cells index v i = cells i.
Proof.
  intros Hne. unfold setCell.
  now destruct (Nat.eqb_spec i index).
Qed.

(* ================================================================== *)
(** ** Interpolation of paths *)

Lemma verbs_eqb_points_length (a b : SkPath) :
  Skia.verbs_eqb (Skia.verbs a) (Skia.verbs b) = true ->
  length (Skia.points a) = length (Skia.points b).
Proof.
  revert b. induction a as [|c a IH]; intros [|d b] H; simpl in H;
    try discriminate; [reflexivity|].
  apply andb_prop in H as [Hv Hr].
  specialize (IH _ Hr).
  destruct c, d; simpl in Hv; try discriminate; simpl; now rewrite IH.
Qed.

Lemma lerp_weight_0 (w : Q) (p e : Point) :
  w == 0 -> point_equiv (Skia.lerp w p e) e.
Proof.
  intros Hw. unfold point_equiv, Skia.lerp; simpl.
  split; rewrite Hw; ring.
Qed.

Lemma lerp_weight_1 (w : Q) (p e : Point) :
  w == 1 -> point_equiv (Skia.lerp w p e) p.
Proof.
  intros Hw. unfold point_equiv, Skia.lerp; simpl.
  split; rewrite Hw; ring.
Qed.

(** Refilling a path with points interpolated at weight 0 gives the ending
    path, at weight 1 the path itself. *)
Lemma refill_weight_0 (w : Q) (this ending : SkPath) :
  w == 0 ->
  Skia.verbs_eqb (Skia.verbs this) (Skia.verbs ending) = true ->
  path_equiv
    (Skia.refill this
       (Skia.lerpPoints w (Skia.points this) (Skia.points ending)))
    ending.
Proof.
  intros Hw. revert ending.
  induction this as [|c this IH]; intros [|d ending] H; simpl in H;
    try discriminate; [constructor|].
  apply andb_prop in H as [Hv Hr].
  specialize (IH _ Hr).
  destruct c, d; simpl in Hv; try discriminate; simpl;
    constructor; simpl; auto using lerp_weight_0.
Qed.

Lemma refill_weight_1 (w : Q) (this ending : SkPath) :
  w == 1 ->
  Skia.verbs_eqb (Skia.verbs this) (Skia.verbs ending) = true ->
  path_equiv
    (Skia.refill this
       (Skia.lerpPoints w (Skia.points this) (Skia.points ending)))
    this.
Proof.
  intros Hw. revert ending.
  induction this as [|c this IH]; intros [|d ending] H; simpl in H;
    try discriminate; [constructor|].
  apply andb_prop in H as [Hv Hr].
  specialize (IH _ Hr).
  destruct c, d; simpl in Hv; try discriminate; simpl;
    constructor; simpl; auto using lerp_weight_1.
Qed.

Lemma interpolate_compatible (this ending : SkPath) (w : Q) :
  Skia.isInterpolatable this ending = true ->
  Skia.interpolate this ending w =
  Some (Skia.refill this
          (Skia.lerpPoints w (Skia.points this) (Skia.points ending))).
Proof.
  intros H. unfold Skia.interpolate.
  rewrite (verbs_eqb_points_length _ _ H).
  now rewrite Nat.eqb_refl.
Qed.

(** The transition of one pair, as both computed values evaluate it. *)
Lemma interpolate_endpoints (t f : SkPath) (w : Q) :
  Skia.isInterpolatable t f = true ->
  (w == 0 -> exists out, Skia.interpolate t f w = Some out /\ path_equiv out f)
  /\ (w == 1 -> exists out, Skia.interpolate t f w = Some out /\ path_equiv out t).
Proof.
  intros Hc. rewrite (interpolate_compatible _ _ w Hc).
  split; intros Hw; eexists; (split; [reflexivity|]).
  - now apply refill_weight_0.
  - now apply refill_weight_1.
Qed.

Lemma verbs_eqb_refl (vs : list PathVerb) : Skia.verbs_eqb vs vs = true.
Proof.
  induction vs as [|v vs IH]; [reflexivity|].
  cbn. rewrite IH. now destruct v.
Qed.

Lemma isInterpolatable_refl (p : SkPath) : Skia.isInterpolatable p p = true.
Proof. apply verbs_eqb_refl. Qed.

(** An interpolated path has the verbs of its receiver. *)
Lemma refill_verbs (w : Q) (this ending : SkPath) :
  Skia.verbs_eqb (Skia.verbs this) (Skia.verbs ending) = true ->
  Skia.verbs
    (Skia.refill this (Skia.lerpPoints w (Skia.points this) (Skia.points ending)))
  = Skia.verbs this.
Proof.
  revert ending.
  induction this as [|c this IH]; intros [|d ending] H; simpl in H;
    try discriminate; [reflexivity|].
  apply andb_prop in H as [Hv Hr].
  specialize (IH _ Hr). unfold Skia.verbs in *.
  destruct c, d; simpl in Hv; try discriminate; simpl; now rewrite IH.
Qed.

(** What a pair of two curves of one structure draws: a path with that
    structure at every progress, the [from] curve at progress 0 and the
    [to] curve at progress 1. *)
Lemma interpolate_structure (t f : SkPath) (w : Q) :
  Skia.isInterpolatable t f = true ->
  exists out,
    Skia.interpolate t f w = Some out
    /\ Skia.verbs out = Skia.verbs t
    /\ (w == 0 -> path_equiv out f)
    /\ (w == 1 -> path_equiv out t).
Proof.
  intros Hc. rewrite (interpolate_compatible _ _ w Hc).
  eexists. split; [reflexivity|]. split; [now apply refill_verbs|].
  split; intros Hw; [now apply refill_weight_0|now apply refill_weight_1].
Qed.

(** C2. For a pair whose [from] and [to] are both present and structurally
    compatible, the interpolated curve the canvas draws is the [from] curve
    at progress 0 and the [to] curve at progress 1: the same verbs over the
    same coordinates.  This holds of every series' stroke path and of the
    gradient path. *)
Theorem transition_endpoints (width height : Z) (st : GraphState)
  (index : nat) (f t : SkPath) :
  Skia.isInterpolatable t f = true ->
  (pathsValues st index = {| from := Some f; to := Some t |} ->
     (interpolateProgresses st index == 0 ->
        exists out, paths width height st index = Some out /\ path_equiv out f)
     /\ (interpolateProgresses st index == 1 ->
        exists out, paths width height st index = Some out /\ path_equiv out t))
  /\ (gradientPaths st = {| from := Some f; to := Some t |} ->
     (interpolateProgresses st 0%nat == 0 ->
        exists out, gradientPathValue width height st = Some out
                    /\ path_equiv out f)
     /\ (interpolateProgresses st 0%nat == 1 ->
        exists out, gradientPathValue width height st = Some out
                    /\ path_equiv out t)).
Proof.
  intros Hc. split; intros Hpair.
  - unfold paths. rewrite Hpair. simpl.
    apply interpolate_endpoints, Hc.
  - unfold gradientPathValue. rewrite Hpair. simpl.
    apply interpolate_endpoints, Hc.
Qed.

Lemma transition_endpoints_witness :
  exists out,
    paths 100 50 (Examples.atProgress 0 Examples.midTransition) 0%nat = Some out
    /\ path_equiv out
         (nullish (from (pathsValues Examples.midTransition 0%nat)) []).
Proof.
  refine (proj1 (proj1 (transition_endpoints 100 50
                          (Examples.atProgress 0 Examples.midTransition) 0%nat
                          (nullish (from (pathsValues Examples.midTransition 0%nat)) [])
                          (nullish (to (pathsValues Examples.midTransition 0%nat)) [])
                          _) _) _);
    vm_compute; reflexivity.
Defined.

(* ================================================================== *)
(** ** The flat baseline placeholder *)

Lemma iterationsFrom_done (width i : Z) :
  (width - 1 <= i)%Z -> iterationsFrom width i = 0%nat.
Proof.
  intros H. unfold iterationsFrom.
  assert ((width - i) / 2 <= 0)%Z; [|lia].
  Z.div_mod_to_equations. lia.
Qed.

Lemma iterationsFrom_step (width i : Z) :
  (i < width - 1)%Z ->
  iterationsFrom width i = S (iterationsFrom width (i + 2)).
Proof.
  intros H. unfold iterationsFrom.
  rewrite <- Z2Nat.inj_succ by (Z.div_mod_to_equations; lia).
  f_equal. Z.div_mod_to_equations. lia.
Qed.

(** With enough fuel the loop stops because its test fails, and it has
    added one flat segment every two pixels. *)
Lemma straightLineLoop_spec (width height : Z) :
  forall fuel i p,
    p <> [] ->
    (iterationsFrom width i <= fuel)%nat ->
    straightLineLoop width height fuel i p =
    p ++ map (fun k => flatSegment height (i + 2 * Z.of_nat k))
             (seq 0 (iterationsFrom width i)).
Proof.
  induction fuel as [|fuel IH]; intros i p Hp Hfuel.
  - assert (iterationsFrom width i = 0%nat) as -> by lia.
    simpl. now rewrite app_nil_r.
  - cbn [straightLineLoop]. destruct (Z.ltb_spec i (width - 1)) as [Hlt|Hge].
    + rewrite (iterationsFrom_step _ _ Hlt) in Hfuel |- *.
      rewrite IH.
      * unfold Skia.cubicTo, Skia.injectMoveToIfNeeded.
        destruct p as [|c p]; [contradiction|].
        rewrite <- app_assoc. f_equal. cbn [app seq map]. f_equal.
        -- unfold flatSegment. change (Z.of_nat 0) with 0%Z.
           now rewrite Z.mul_0_r, Z.add_0_r.
        -- rewrite <- seq_shift, map_map.
           apply map_ext. intros k. f_equal. lia.
      * unfold Skia.cubicTo, Skia.injectMoveToIfNeeded.
        destruct p; discriminate.
      * lia.
    + rewrite (iterationsFrom_done _ _ Hge). simpl. now rewrite app_nil_r.
Qed.

Lemma iterationsFrom_fuel (width : Z) :
  (iterationsFrom width 0 <= Z.to_nat width)%nat.
Proof.
  unfold iterationsFrom. rewrite Z.sub_0_r.
  assert (width / 2 <= Z.max 0 width)%Z by (Z.div_mod_to_equations; lia).
  lia.
Qed.

(** More fuel does not change the loop's result. *)
Lemma straightLineLoop_fuel (width height : Z) (extra : nat) (p : SkPath) :
  p <> [] ->
  straightLineLoop width height (Z.to_nat width + extra) 0%Z p =
  straightLineLoop width height (Z.to_nat width) 0%Z p.
Proof.
  intros Hp.
  rewrite !straightLineLoop_spec; auto; pose proof (iterationsFrom_fuel width); lia.
Qed.

Lemma straightLine_closed_form (width height : Z) :
  straightLine width height =
  MoveCmd (0, inject_Z height / 2)
  :: map (fun k => flatSegment height (2 * Z.of_nat k))
         (seq 0 (Z.to_nat (width / 2))).
Proof.
  unfold straightLine, Skia.moveTo, Skia.Make. simpl app.
  rewrite straightLineLoop_spec.
  - simpl app. f_equal. unfold iterationsFrom. rewrite Z.sub_0_r.
    apply map_ext. intros k. reflexivity.
  - discriminate.
  - apply iterationsFrom_fuel.
Qed.

Lemma straightLine_points (width height : Z) (p : Point) :
  In p (Skia.points (straightLine width height)) ->
  p = (0, inject_Z height / 2)
  \/ exists k : nat,
       (k < Z.to_nat (width / 2))%nat
       /\ p = (inject_Z (2 * Z.of_nat k), inject_Z height / 2).
Proof.
  rewrite straightLine_closed_form. unfold Skia.points.
  cbn [flat_map Skia.pointsOf app]. intros [<-|Hin]; [now left|right].
  apply in_flat_map in Hin as (c & Hc & Hp).
  apply in_map_iff in Hc as (k & <- & Hk).
  apply in_seq in Hk. exists k. split; [lia|].
  unfold flatSegment in Hp. cbn [Skia.pointsOf] in Hp.
  destruct Hp as [<-|[<-|[<-|[]]]]; reflexivity.
Qed.

(** The shape of [straightLine]: a move to the left edge at half the
    canvas height, then one segment every two pixels whose control points
    and end point coincide at that height, none of them past [width - 2],
    the last one within three pixels of the width. *)
Lemma straightLine_shape (width height : Z) :
  let line := straightLine width height in
  line =
  MoveCmd (0, inject_Z height / 2)
  :: map (fun k => flatSegment height (2 * Z.of_nat k))
         (seq 0 (Z.to_nat (width / 2)))
  /\ (forall p, In p (Skia.points line) ->
        snd p = inject_Z height / 2
        /\ 0 <= fst p
        /\ fst p <= inject_Z (Z.max 0 (width - 2)))
  /\ (exists p, In p (Skia.points line) /\ inject_Z (width - 3) <= fst p).
Proof.
  intros line. subst line.
  repeat split.
  - apply straightLine_closed_form.
  - apply straightLine_points in H as [->|(k & Hk & ->)]; reflexivity.
  - apply straightLine_points in H as [->|(k & Hk & ->)]; cbn [fst].
    + apply Qle_refl.
    + change 0 with (inject_Z 0). rewrite <- Zle_Qle. lia.
  - apply straightLine_points in H as [->|(k & Hk & ->)]; cbn [fst].
    + change 0 with (inject_Z 0). rewrite <- Zle_Qle. lia.
    + rewrite <- Zle_Qle.
      assert (Z.of_nat k < width / 2)%Z by lia.
      Z.div_mod_to_equations. lia.
  - destruct (Z.le_gt_cases 2 width) as [Hbig|Hsmall].
    + exists (inject_Z (2 * Z.of_nat (Z.to_nat (width / 2) - 1)),
              inject_Z height / 2).
      assert (1 <= width / 2)%Z by (Z.div_mod_to_equations; lia).
      split.
      * rewrite straightLine_closed_form. unfold Skia.points.
        cbn [flat_map Skia.pointsOf app]. right.
        apply in_flat_map.
        exists (flatSegment height (2 * Z.of_nat (Z.to_nat (width / 2) - 1))).
        split; [|now left].
        apply in_map_iff. eexists. split; [reflexivity|].
        apply in_seq. lia.
      * cbn [fst]. rewrite <- Zle_Qle.
        rewrite Nat2Z.inj_sub by lia. rewrite Z2Nat.id by lia.
        Z.div_mod_to_equations. lia.
    + exists (0, inject_Z height / 2). split.
      * rewrite straightLine_closed_form. now left.
      * cbn [fst]. change 0 with (inject_Z 0). rewrite <- Zle_Qle. lia.
Qed.

(* ================================================================== *)
(** ** The rebuild effect *)

Section Rebuild.

Context {imports : GraphImports}.
Variable props : AnimatedLineGraphProps.
Variables width height : Z.

Lemma filter_none {A : Type} (f : A -> bool) (xs : list A) :
  forallb (fun x => negb (f x)) xs = true -> filter f xs = [].
Proof.
  induction xs as [|x xs IH]; cbn; [reflexivity|].
  intros H. apply andb_prop in H as [Hx Hxs].
  destruct (f x); [discriminate|]. now apply IH.
Qed.

Lemma rebuild_guards (st : GraphState) :
  measured width height -> noEmptySeries props = true ->
  rebuild props width height st =
  (built <- buildPaths props width height st ;;
   st1 <- setCommands (fst built) 0 (snd built) ;;
   st2 <- publishGradient props st1 ;;
   st3 <- publishPaths (fst built) (fromValues props width height st2) 0 st2 ;;
   Returned st3).
Proof.
  intros [Hh Hw] Hne. unfold rebuild.
  destruct (Z.ltb_spec height 1); [lia|].
  destruct (Z.ltb_spec width 1); [lia|].
  cbn [orb]. now rewrite (filter_none _ _ Hne).
Qed.

Lemma publishGradient_skips (st : GraphState) :
  publishGradient props st = Returned st.
Proof.
  unfold publishGradient.
  destruct (allPoints props); reflexivity.
Qed.

(** Storing the commands writes no other cell. *)
Lemma setCommands_paths (ps : list SkPath) :
  forall index st,
  exists st',
    setCommands (map Some ps) index st = Returned st'
    /\ pathsValues st' = pathsValues st
    /\ interpolateProgresses st' = interpolateProgresses st
    /\ gradientPaths st' = gradientPaths st
    /\ (forall i p, nth_error ps i = Some p ->
          commands st' (index + i)%nat = Skia.toCmds p)
    /\ (forall j, (j < index)%nat -> commands st' j = commands st j).
Proof.
  induction ps as [|p ps IH]; intros index st; cbn [map setCommands].
  - exists st. repeat split; auto. intros [|i] q; discriminate.
  - destruct (IH (S index)
                (with_commands st (setCell (commands st) index (Skia.toCmds p))))
      as (st' & Hrun & Hpv & Hpr & Hg & Hcmd & Hlow).
    exists st'. split; [exact Hrun|]. repeat split; auto.
    + intros [|i] q Hq; cbn in Hq.
      * injection Hq as <-. rewrite Nat.add_0_r, Hlow by lia.
        cbn [commands with_commands]. apply setCell_same.
      * rewrite Nat.add_succ_r. now apply (Hcmd i q).
    + intros j Hj. rewrite Hlow by lia.
      cbn [commands with_commands]. apply setCell_other. lia.
Qed.

(** Publishing stores, for every series, the pair [nextPair] decides. *)
Lemma publishPaths_paths (ps : list SkPath) :
  forall froms index st,
    length froms = length ps ->
    exists st',
      publishPaths (map Some ps) froms index st = Returned st'
      /\ commands st' = commands st
      /\ interpolateProgresses st' = interpolateProgresses st
      /\ gradientPaths st' = gradientPaths st
      /\ (forall i p fromV,
            nth_error ps i = Some p -> nth_error froms i = Some fromV ->
            pathsValues st' (index + i)%nat = nextPair p fromV)
      /\ (forall j, (j < index)%nat -> pathsValues st' j = pathsValues st j).
Proof.
  induction ps as [|p ps IH]; intros froms index st Hlen;
    cbn [map publishPaths].
  - exists st. repeat split; auto. intros [|i] q fromV; discriminate.
  - destruct froms as [|fromV froms]; [discriminate|].
    injection Hlen as Hlen.
    destruct (IH froms (S index)
                (with_pathsValues st
                   (setCell (pathsValues st) index (nextPair p fromV))) Hlen)
      as (st' & Hrun & Hcmd & Hpr & Hg & Hpv & Hlow).
    exists st'. split; [exact Hrun|]. repeat split; auto.
    + intros [|i] q f Hq Hf; cbn in Hq, Hf.
      * injection Hq as <-. injection Hf as <-.
        rewrite Nat.add_0_r, Hlow by lia.
        cbn [pathsValues with_pathsValues]. apply setCell_same.
      * rewrite Nat.add_succ_r. now apply (Hpv i q f).
    + intros j Hj. rewrite Hlow by lia.
      cbn [pathsValues with_pathsValues]. apply setCell_other. lia.
Qed.

Lemma fromValues_nth (st : GraphState) (index : nat) :
  (index < length (allPoints props))%nat ->
  nth_error (fromValues props width height st) index =
  Some (fromValue width height (pathsValues st index)
          (interpolateProgresses st index)).
Proof.
  intros Hlt. unfold fromValues. rewrite mapi_nth_error.
  destruct (nth_error (allPoints props) index) eqn:E; [reflexivity|].
  apply nth_error_None in E. lia.
Qed.

(** Once every entry of the local array [paths] holds a path, the effect
    runs to its end and publishes, for every series, the pair decided from
    the freshly built path and the [from] computed from the previous
    pair. *)
Lemma rebuild_publishes (st st1 : GraphState) (ps : list SkPath) :
  measured width height -> noEmptySeries props = true ->
  buildPaths props width height st = Returned (map Some ps, st1) ->
  length ps = length (allPoints props) ->
  pathsValues st1 = pathsValues st ->
  interpolateProgresses st1 = interpolateProgresses st ->
  exists st',
    rebuild props width height st = Returned st'
    /\ forall index p,
         nth_error ps index = Some p ->
         pathsValues st' index =
         nextPair p (fromValue width height (pathsValues st index)
                       (interpolateProgresses st index))
         /\ commands st' index = Skia.toCmds p
         /\ interpolateProgresses st' index = interpolateProgresses st index.
Proof.
  intros Hm Hne Hbuild Hlen Hpv1 Hpr1.
  rewrite (rebuild_guards st Hm Hne), Hbuild. cbn [bind fst snd].
  destruct (setCommands_paths ps 0%nat st1)
    as (st2 & -> & Hpv2 & Hpr2 & _ & Hcmd2 & _).
  cbn [bind]. rewrite publishGradient_skips. cbn [bind].
  destruct (publishPaths_paths ps (fromValues props width height st2) 0%nat st2)
    as (st3 & -> & Hcmd3 & Hpr3 & _ & Hpv3 & _).
  { unfold fromValues. now rewrite mapi_length. }
  cbn [bind]. eexists. split; [reflexivity|].
  intros index p Hp.
  assert (index < length (allPoints props))%nat as Hlt.
  { rewrite <- Hlen. apply nth_error_Some. congruence. }
  repeat split.
  - specialize (Hpv3 index p _ Hp (fromValues_nth st2 index Hlt)).
    cbn [Nat.add] in Hpv3. rewrite Hpv3.
    now rewrite Hpv2, Hpr2, Hpv1, Hpr1.
  - rewrite Hcmd3. exact (Hcmd2 index p Hp).
  - now rewrite Hpr3, Hpr2, Hpr1.
Qed.

Lemma createGraphPathProps_length :
  length (createGraphPathProps props width height) = length (allPoints props).
Proof. unfold createGraphPathProps. apply mapi_length. Qed.

(** Without gradient fill every series' path is built and published. *)
Lemma rebuild_stroke (st : GraphState) :
  measured width height -> noEmptySeries props = true -> shouldFillGradient props = false ->
  exists st',
    rebuild props width height st = Returned st'
    /\ forall index cfg,
         nth_error (createGraphPathProps props width height) index = Some cfg ->
         pathsValues st' index =
         nextPair (createGraphPath cfg)
           (fromValue width height (pathsValues st index)
              (interpolateProgresses st index))
         /\ commands st' index = Skia.toCmds (createGraphPath cfg)
         /\ interpolateProgresses st' index = interpolateProgresses st index.
Proof.
  intros Hm Hne Hg.
  destruct (rebuild_publishes st st
              (map createGraphPath (createGraphPathProps props width height)))
    as (st' & Hrun & Hall); auto.
  - unfold buildPaths. rewrite Hg. now rewrite map_map.
  - now rewrite length_map, createGraphPathProps_length.
  - exists st'. split; [exact Hrun|].
    intros index cfg Hcfg. apply Hall.
    now rewrite nth_error_map, Hcfg.
Qed.

(** With gradient fill and a single series the stroke path is built and
    published as well. *)
Lemma rebuild_single_gradient (st : GraphState) :
  measured width height -> noEmptySeries props = true ->
  shouldFillGradient props = true ->
  length (allPoints props) = 1%nat ->
  exists st',
    rebuild props width height st = Returned st'
    /\ forall index cfg,
         nth_error (createGraphPathProps props width height) index = Some cfg ->
         pathsValues st' index =
         nextPair (path (createGraphPathWithGradient cfg))
           (fromValue width height (pathsValues st index)
              (interpolateProgresses st index))
         /\ commands st' index
            = Skia.toCmds (path (createGraphPathWithGradient cfg))
         /\ interpolateProgresses st' index = interpolateProgresses st index.
Proof.
  intros Hm Hne Hg Hlen.
  pose proof createGraphPathProps_length as Hn. rewrite Hlen in Hn.
  destruct (createGraphPathProps props width height) as [|cfg0 [|cfg1 rest]] eqn:Hcfgs;
    try discriminate.
  destruct (rebuild_publishes st
              (with_gradientPaths_0 st
                 (Some (gradientPath (createGraphPathWithGradient cfg0))))
              [path (createGraphPathWithGradient cfg0)])
    as (st' & Hrun & Hall); auto.
  - unfold buildPaths. now rewrite Hg, Hcfgs, Hlen.
  - exists st'. split; [exact Hrun|].
    intros [|[|index]] cfg Hcfg; try discriminate.
    injection Hcfg as <-. now apply Hall.
Qed.

(** Every rebuild that runs, other than the gradient-fill rebuild of
    several series, publishes a pair for every series. *)
Lemma rebuild_completes (st : GraphState) :
  measured width height -> noEmptySeries props = true ->
  shouldFillGradient props = false \/ length (allPoints props) = 1%nat ->
  exists st',
    rebuild props width height st = Returned st'
    /\ forall index cfg,
         nth_error (createGraphPathProps props width height) index = Some cfg ->
         pathsValues st' index =
         nextPair (freshPath props cfg)
           (fromValue width height (pathsValues st index)
              (interpolateProgresses st index)).
Proof.
  intros Hm Hne Hmode. unfold freshPath.
  destruct (shouldFillGradient props) eqn:Hg.
  - destruct Hmode as [|Hlen]; [discriminate|].
    destruct (rebuild_single_gradient st Hm Hne Hg Hlen) as (st' & Hrun & Hall).
    exists st'. split; [exact Hrun|]. intros index cfg Hcfg.
    now destruct (Hall index cfg Hcfg).
  - destruct (rebuild_stroke st Hm Hne Hg) as (st' & Hrun & Hall).
    exists st'. split; [exact Hrun|]. intros index cfg Hcfg.
    now destruct (Hall index cfg Hcfg).
Qed.

End Rebuild.

Lemma Qltb_lt (a b : Q) : Qltb a b = true <-> a < b.
Proof.
  unfold Qltb. rewrite negb_true_iff.
  split; intros H.
  - apply Qnot_le_lt. intros Hle. apply Qle_bool_iff in Hle. congruence.
  - destruct (Qle_bool b a) eqn:E; [|reflexivity].
    apply Qle_bool_iff in E. exfalso. now apply (Qlt_not_le a b).
Qed.

Lemma Qltb_ge (a b : Q) : b <= a -> Qltb a b = false.
Proof.
  intros H. unfold Qltb. apply Qle_bool_iff in H. now rewrite H.
Qed.

(** C6. When the filtered point set of some series is empty the rebuild
    returns at once: no exception is raised and every cell is as it was, so
    no curve was built and no pair was published, whatever the path builder
    is. *)
Theorem rebuild_skips_empty_series {imports : GraphImports}
  (props : AnimatedLineGraphProps) (width height : Z) (st : GraphState)
  (index : nat) :
  nth_error (pointsInRanges props) index = Some [] ->
  rebuild props width height st = Returned st.
Proof.
  intros Hempty. unfold rebuild.
  destruct ((height <? 1)%Z || (width <? 1)%Z); [reflexivity|].
  destruct (filter _ (pointsInRanges props)) eqn:Hf; [|reflexivity].
  exfalso.
  assert (In (@nil GraphPoint)
             (filter (fun points => (length points <? 1)%nat)
                     (pointsInRanges props))) as Hin.
  { apply filter_In. split; [|reflexivity].
    eapply nth_error_In, Hempty. }
  now rewrite Hf in Hin.
Qed.

Lemma rebuild_skips_empty_series_witness :
  rebuild (imports := SpecImports) Examples.windowPastData 100 50
    Examples.midTransition
  = Returned Examples.midTransition.
Proof.
  apply (rebuild_skips_empty_series (imports := SpecImports)
           Examples.windowPastData 100 50 Examples.midTransition 0%nat).
  vm_compute. reflexivity.
Defined.

(** C1, as the code has it.  For a rebuild that runs (the view is measured,
    no series is empty; with gradient fill, a single series), every series
    gets a new pair whose [to] is the freshly built curve.  Its [from] is
    the interpolation of the previous pair's [from] and [to] at the current
    progress when the previous [from] is present and the progress is below
    1, and the previous [to] when the progress has reached 1, in both cases
    provided the fresh curve is structurally interpolatable with that curve;
    when the fresh curve is not interpolatable with the computed [from], the
    new [from] is the fresh curve itself. *)
Theorem rebuild_from_captures_transition {imports : GraphImports}
  (props : AnimatedLineGraphProps) (width height : Z) (st : GraphState) :
  measured width height ->
  noEmptySeries props = true ->
  shouldFillGradient props = false \/ length (allPoints props) = 1%nat ->
  exists st',
    rebuild props width height st = Returned st'
    /\ forall index cfg,
         nth_error (createGraphPathProps props width height) index = Some cfg ->
         let fresh := freshPath props cfg in
         let previous := pathsValues st index in
         let progress := interpolateProgresses st index in
         to (pathsValues st' index) = Some fresh
         /\ (forall f t snapshot,
               from previous = Some f -> to previous = Some t ->
               progress < 1 ->
               Skia.interpolate t f progress = Some snapshot ->
               Skia.isInterpolatable fresh snapshot = true ->
               from (pathsValues st' index) = Some snapshot)
         /\ (forall t,
               to previous = Some t -> 1 <= progress ->
               Skia.isInterpolatable fresh t = true ->
               from (pathsValues st' index) = Some t)
         /\ (Skia.isInterpolatable fresh
               (fromValue width height previous progress) = false ->
             from (pathsValues st' index) = Some fresh).
Proof.
  intros Hm Hne Hmode.
  destruct (rebuild_completes props width height st Hm Hne Hmode)
    as (st' & Hrun & Hall).
  exists st'. split; [exact Hrun|].
  intros index cfg Hcfg fresh previous progress.
  pose proof (Hall index cfg Hcfg) as Hpair.
  fold fresh previous progress in Hpair. rewrite Hpair.
  repeat split.
  - unfold nextPair. now destruct (Skia.isInterpolatable _ _).
  - intros f t snapshot Hf Ht Hlt Hsnap Hcompat.
    unfold nextPair, fromValue. rewrite Hf, Ht. cbn [nullish].
    apply Qltb_lt in Hlt. rewrite Hlt, Hsnap. cbn [nullish].
    now rewrite Hcompat.
  - intros t Ht Hge Hcompat.
    unfold nextPair, fromValue. rewrite Ht. cbn [nullish].
    rewrite (Qltb_ge _ _ Hge).
    destruct (from previous); now rewrite Hcompat.
  - intros Hcut. unfold nextPair. now rewrite Hcut.
Qed.

Lemma rebuild_from_captures_transition_witness :
  exists st',
    rebuild (imports := SpecImports) (Examples.graphOf [Examples.threePoints] false)
      100 50 Examples.midTransition = Returned st'
    /\ to (pathsValues st' 0%nat)
       = Some (CreateGraphPath.createGraphPath
                 (Examples.configOf Examples.threePoints 100 50))
    /\ from (pathsValues st' 0%nat) = paths 100 50 Examples.midTransition 0%nat.
Proof.
  destruct (rebuild_from_captures_transition (imports := SpecImports)
              (Examples.graphOf [Examples.threePoints] false) 100 50
              Examples.midTransition)
    as (st' & Hrun & Hall).
  - split; lia.
  - reflexivity.
  - left. reflexivity.
  - exists st'. split; [exact Hrun|].
    destruct (Hall 0%nat (Examples.configOf Examples.threePoints 100 50))
      as (Hto & Hfrom & _).
    + vm_compute. reflexivity.
    + split; [exact Hto|].
      apply (Hfrom
               (nullish (from (pathsValues Examples.midTransition 0%nat)) [])
               (nullish (to (pathsValues Examples.midTransition 0%nat)) [])
               (nullish (paths 100 50 Examples.midTransition 0%nat) []));
        vm_compute; reflexivity.
Defined.

(** C1 as stated fails.  A transition between two three-point curves is
    half way when the data grows to four points and the view narrows to 60
    pixels: the previous pair has a [from], the progress is below 1, and the
    curve now built is not interpolatable with the interpolated snapshot of
    the transition; the new [from] is the fresh curve, not the snapshot. *)
Lemma rebuild_from_not_always_snapshot :
  exists st' f t snapshot,
    rebuild (imports := SpecImports) (Examples.graphOf [Examples.fourPoints] false)
      60 50 Examples.midTransition = Returned st'
    /\ from (pathsValues Examples.midTransition 0%nat) = Some f
    /\ to (pathsValues Examples.midTransition 0%nat) = Some t
    /\ interpolateProgresses Examples.midTransition 0%nat < 1
    /\ Skia.interpolate t f (interpolateProgresses Examples.midTransition 0%nat)
       = Some snapshot
    /\ from (pathsValues st' 0%nat) <> Some snapshot
    /\ from (pathsValues st' 0%nat) = to (pathsValues st' 0%nat).
Proof.
  exists (stateOf (rebuild (imports := SpecImports)
                     (Examples.graphOf [Examples.fourPoints] false)
                     60 50 Examples.midTransition)),
         (nullish (from (pathsValues Examples.midTransition 0%nat)) []),
         (nullish (to (pathsValues Examples.midTransition 0%nat)) []),
         (nullish (paths 60 50 Examples.midTransition 0%nat) []).
  repeat split; try (vm_compute; reflexivity).
  intros H.
  apply (f_equal (option_map (@length PathCommand))) in H.
  vm_compute in H. discriminate.
Qed.




(** Whatever the inputs, and however the rebuild ends, the pair of the
    gradient path is the one it was before. *)
Lemma setCommands_keeps_gradientPaths (ps : list (option SkPath)) :
  forall index st,
    gradientPaths (stateOf (setCommands ps index st)) = gradientPaths st.
Proof.
  induction ps as [|[p|] ps IH]; intros index st; cbn [setCommands stateOf];
    try reflexivity.
  now rewrite IH.
Qed.

Lemma publishPaths_keeps_gradientPaths (ps : list (option SkPath)) :
  forall froms index st,
    gradientPaths (stateOf (publishPaths ps froms index st)) = gradientPaths st.
Proof.
  induction ps as [|[p|] ps IH]; intros [|fromV froms] index st;
    cbn [publishPaths stateOf]; try reflexivity.
  now rewrite IH.
Qed.

Lemma buildPaths_keeps_gradientPaths {imports : GraphImports}
  (props : AnimatedLineGraphProps) (width height : Z) (st : GraphState) :
  match buildPaths props width height st with
  | Returned built => gradientPaths (snd built) = gradientPaths st
  | TypeError st' => st' = st
  end.
Proof.
  unfold buildPaths. destruct (shouldFillGradient props); [|reflexivity].
  destruct (nth_error _ 0); reflexivity.
Qed.

Lemma rebuild_keeps_gradientPaths {imports : GraphImports}
  (props : AnimatedLineGraphProps) (width height : Z) (st : GraphState) :
  gradientPaths (stateOf (rebuild props width height st)) = gradientPaths st.
Proof.
  unfold rebuild.
  destruct ((height <? 1)%Z || (width <? 1)%Z); [reflexivity|].
  destruct (0 <? length _)%nat; [reflexivity|].
  pose proof (buildPaths_keeps_gradientPaths props width height st) as Hb.
  destruct (buildPaths props width height st) as [[ps st1]|st1];
    cbn [bind fst snd stateOf] in *; [|now subst].
  pose proof (setCommands_keeps_gradientPaths ps 0%nat st1) as H1.
  destruct (setCommands ps 0 st1) as [st2|st2]; cbn [bind stateOf] in *;
    [|congruence].
  rewrite publishGradient_skips. cbn [bind].
  pose proof (publishPaths_keeps_gradientPaths ps
                (fromValues props width height st2) 0%nat st2) as H2.
  destruct (publishPaths ps _ 0 st2) as [st3|st3]; cbn [bind stateOf] in *;
    congruence.
Qed.

(** C3, at a single series with gradient fill: the rebuild returns, the
    gradient curve is built and is not interpolatable with the [from]
    computed from the (absent) previous pair, and yet no pair is published
    for the gradient path: the built curve was written to the property
    ["0"] of the value object, and the publishing block, which tests the
    never-written local array, was skipped. *)
Theorem rebuild_gradient_pair_unpublished :
  exists st' g,
    rebuild (imports := SpecImports) (Examples.graphOf [Examples.threePoints] true)
      100 50 initialState = Returned st'
    /\ g = gradientPath (CreateGraphPath.createGraphPathWithGradient
                           (Examples.configOf Examples.threePoints 100 50))
    /\ Skia.isInterpolatable g
         (nullish (to (gradientPaths initialState)) (straightLine 100 50))
       = false
    /\ gradientPaths st' = {| from := None; to := None |}
    /\ gradientPaths st' <> {| from := Some g; to := Some g |}.
Proof.
  exists (stateOf (rebuild (imports := SpecImports)
                     (Examples.graphOf [Examples.threePoints] true)
                     100 50 initialState)),
         (gradientPath (CreateGraphPath.createGraphPathWithGradient
                          (Examples.configOf Examples.threePoints 100 50))).
  repeat split; try (vm_compute; reflexivity).
  rewrite rebuild_keeps_gradientPaths. discriminate.
Qed.

(** C5, the defect in general: with gradient fill and two or more series
    the rebuild raises a [TypeError] on the second series, whose entry of
    the local array was never built; no series past the first gets its
    commands, and no series at all gets a pair. *)
Theorem rebuild_gradient_leaves_series_unbuilt {imports : GraphImports}
  (props : AnimatedLineGraphProps) (width height : Z) (st : GraphState) :
  measured width height ->
  noEmptySeries props = true ->
  shouldFillGradient props = true ->
  (2 <= length (allPoints props))%nat ->
  exists st',
    rebuild props width height st = TypeError st'
    /\ (forall index, (1 <= index)%nat -> commands st' index = commands st index)
    /\ (forall index, pathsValues st' index = pathsValues st index).
Proof.
  intros Hm Hne Hg Hlen.
  rewrite (rebuild_guards props width height st Hm Hne).
  unfold buildPaths. rewrite Hg.
  pose proof (createGraphPathProps_length props width height) as Hn.
  destruct (createGraphPathProps props width height) as [|props0 rest];
    [cbn in Hn; lia|].
  cbn [nth_error].
  destruct (length (allPoints props)) as [|[|n]]; try lia.
  cbn [repeat tl bind fst snd setCommands].
  eexists. split; [reflexivity|]. split.
  - intros index Hi. cbn [commands with_commands with_gradientPaths_0].
    apply setCell_other. lia.
  - reflexivity.
Qed.

Lemma rebuild_gradient_leaves_series_unbuilt_witness :
  exists st',
    rebuild (imports := SpecImports)
      (Examples.graphOf [Examples.threePoints; Examples.fivePoints] true)
      100 50 initialState = TypeError st'
    /\ (forall index, (1 <= index)%nat ->
          commands st' index = commands initialState index)
    /\ (forall index, pathsValues st' index = pathsValues initialState index).
Proof.
  apply (rebuild_gradient_leaves_series_unbuilt (imports := SpecImports)
           (Examples.graphOf [Examples.threePoints; Examples.fivePoints] true)
           100 50 initialState).
  - split; lia.
  - reflexivity.
  - reflexivity.
  - simpl. lia.
Defined.

(* ================================================================== *)
(** ** The pointer: selection dot and selected sample *)

(** The segment [selectCurve] returns brackets [x] between two points of
    the curve. *)
Lemma selectCurve_brackets (cmds : list PathCommand) (x : Q) :
  forall from0 s,
    GetYForX.selectCurve cmds from0 x = Some s ->
    (from0 = Some (GetYForX.seg_from s)
     \/ exists c, In c cmds /\ GetYForX.onCurve c = GetYForX.seg_from s)
    /\ (exists c, In c cmds /\ GetYForX.onCurve c = GetYForX.seg_to s)
    /\ fst (GetYForX.seg_from s) <= x
    /\ x <= fst (GetYForX.seg_to s).
Proof.
  induction cmds as [|c cmds IH]; intros from0 s Hs; [discriminate|].
  assert (forall p,
            GetYForX.onCurve c = p ->
            GetYForX.selectCurve cmds (Some p) x = Some s ->
            (from0 = Some (GetYForX.seg_from s)
             \/ exists c', In c' (c :: cmds)
                           /\ GetYForX.onCurve c' = GetYForX.seg_from s)
            /\ (exists c', In c' (c :: cmds)
                           /\ GetYForX.onCurve c' = GetYForX.seg_to s)
            /\ fst (GetYForX.seg_from s) <= x
            /\ x <= fst (GetYForX.seg_to s)) as Hrest.
  { intros p Hp Hsel.
    destruct (IH _ _ Hsel) as ([Hf|(c' & Hin & Hf)] & (c2 & Hin2 & Ht) & Hlo & Hhi).
    - injection Hf as Hf. repeat split; auto.
      + right. exists c. split; [now left|congruence].
      + exists c2. split; [now right|exact Ht].
    - repeat split; auto.
      + right. exists c'. split; [now right|exact Hf].
      + exists c2. split; [now right|exact Ht]. }
  destruct c as [p|p|c1 c2 p]; cbn [GetYForX.selectCurve] in Hs;
    try (apply (Hrest p); [reflexivity|exact Hs]).
  destruct from0 as [f|]; [|apply (Hrest p); [reflexivity|exact Hs]].
  destruct (negb (Qeq_bool (fst f) (fst p)) && Qle_bool (fst f) x
            && Qle_bool x (fst p)) eqn:Hb;
    [|apply (Hrest p); [reflexivity|exact Hs]].
  injection Hs as <-. cbn.
  apply andb_prop in Hb as [Hb Hhi]. apply andb_prop in Hb as [_ Hlo].
  apply Qle_bool_iff in Hlo, Hhi.
  repeat split; auto.
  exists (CubicCmd c1 c2 p). split; [now left|reflexivity].
Qed.

Lemma getYForX_outside (cmds : list PathCommand) (x : Q) :
  GetYForX.outsideExtent cmds x = true -> GetYForX.getYForX cmds x = None.
Proof.
  intros Hout. unfold GetYForX.getYForX.
  destruct (GetYForX.selectCurve cmds None x) as [s|] eqn:Hs; [|reflexivity].
  exfalso.
  destruct (selectCurve_brackets _ _ _ _ Hs)
    as ([Hf|(c & Hin & Hf)] & (c' & Hin' & Ht) & Hlo & Hhi); [discriminate|].
  unfold GetYForX.outsideExtent in Hout.
  apply orb_prop in Hout as [Hall|Hall];
    rewrite forallb_forall in Hall.
  - specialize (Hall c Hin). rewrite Hf in Hall.
    apply Qle_bool_iff in Hlo. now rewrite Hlo in Hall.
  - specialize (Hall c' Hin'). rewrite Ht in Hall.
    apply Qle_bool_iff in Hhi. now rewrite Hhi in Hall.
Qed.

(** C7. Against the Inverse Sampler as the specification describes it: at
    a pointer position left of every point of the curve or right of every
    point of it (which covers the empty command sequence), the sampler
    returns no value, and the worklet [setFingerXs] then leaves the
    coordinates of the selection dot as they were. *)
Theorem pointer_outside_curve_keeps_dot (width : Z) (isActive : bool)
  (index : nat) (fingerX : Q) (st : GraphState) :
  GetYForX.outsideExtent (commands st index) fingerX = true ->
  GetYForX.getYForX (commands st index) fingerX = None
  /\ circleXs (setFingerXs (imports := SpecImports) width isActive index fingerX st)
     = circleXs st
  /\ circleYs (setFingerXs (imports := SpecImports) width isActive index fingerX st)
     = circleYs st.
Proof.
  intros Hout. pose proof (getYForX_outside _ _ Hout) as Hnone.
  split; [exact Hnone|].
  unfold setFingerXs. cbn [getYForX SpecImports]. rewrite Hnone.
  destruct isActive; split; reflexivity.
Qed.

Lemma pointer_outside_curve_keeps_dot_witness :
  GetYForX.getYForX (commands Examples.midTransition 0%nat) 150 = None
  /\ circleXs (setFingerXs (imports := SpecImports) 100 true 0%nat 150
                 Examples.midTransition)
     = circleXs Examples.midTransition
  /\ circleYs (setFingerXs (imports := SpecImports) 100 true 0%nat 150
                 Examples.midTransition)
     = circleYs Examples.midTransition.
Proof.
  apply (pointer_outside_curve_keeps_dot 100 true 0%nat 150 Examples.midTransition).
  vm_compute. reflexivity.
Defined.

(** C10. Whenever the sampler yields no value at a series' indicator x,
    the indicator y published for that series is 0. *)
Theorem indicator_defaults_to_top {imports : GraphImports}
  (props : AnimatedLineGraphProps) (width : Z) (st : GraphState)
  (index : nat) :
  (index < length (allPoints props))%nat ->
  getYForX (commands st index) (nth index (indicatorXs props width) 0) = None ->
  nth_error (indicatorYs props width st) index = Some 0.
Proof.
  intros Hlt Hnone. unfold indicatorYs. rewrite mapi_nth_error.
  destruct (nth_error (allPoints props) index) eqn:E.
  - cbn [option_map]. now rewrite Hnone.
  - apply nth_error_None in E. lia.
Qed.

Lemma indicator_defaults_to_top_witness :
  nth_error (indicatorYs (imports := SpecImports)
               (Examples.graphOf [Examples.threePoints] false) 100 initialState)
            0%nat
  = Some 0.
Proof.
  apply (indicator_defaults_to_top (imports := SpecImports)
           (Examples.graphOf [Examples.threePoints] false) 100 initialState 0%nat).
  - simpl. lia.
  - vm_compute. reflexivity.
Defined.

Lemma strictNeq_false (r : option JsInt) (v : JsInt) :
  strictNeq r v = false -> r = Some v.
Proof.
  destruct r as [a|]; [|discriminate]. cbn. intros H.
  apply negb_false_iff in H.
  destruct a, v; cbn in H; try discriminate; try reflexivity.
  apply Z.eqb_eq in H. now subst.
Qed.

Lemma strictNeq_same (v : JsInt) :
  v <> INaN -> strictNeq (Some v) v = false.
Proof.
  intros Hv. destruct v; cbn; try reflexivity; [|contradiction].
  now rewrite Z.eqb_refl.
Qed.

(** C8, as the code has it.  For a series with a point in range, the index
    selected from a pointer position and the point data is the same whatever
    was selected before: after the call the remembered index is that index.
    The callback decision depends on nothing but the index remembered from
    the previous selection: two runs that start from the same remembered
    index make the same calls, and a run that starts from the index it
    selects makes none. *)
Theorem selection_depends_on_remembered_index {imports : GraphImports}
  (props : AnimatedLineGraphProps) (width : Z) (index : nat) (fingerX : Q)
  (lastPoint : GraphPoint) (st1 st2 : GraphState) :
  let points := nth index (pointsInRanges props) [] in
  let pointIndex := pointIndexOf props width index fingerX lastPoint in
  nth_error points (length points - 1) = Some lastPoint ->
  exists s1 s2 calls1 calls2,
    setFingerPoints props width index fingerX st1 = Returned s1
    /\ setFingerPoints props width index fingerX st2 = Returned s2
    /\ pointSelectedIndex s1 = Some pointIndex
    /\ pointSelectedIndex s2 = Some pointIndex
    /\ selected s1 = selected st1 ++ calls1
    /\ selected s2 = selected st2 ++ calls2
    /\ (pointSelectedIndex st1 = pointSelectedIndex st2 -> calls1 = calls2)
    /\ (pointSelectedIndex st1 = Some pointIndex -> pointIndex <> INaN ->
        calls1 = []).
Proof.
  intros points pointIndex Hlast.
  assert (forall st,
            exists s calls,
              setFingerPoints props width index fingerX st = Returned s
              /\ pointSelectedIndex s = Some pointIndex
              /\ selected s = selected st ++ calls
              /\ calls =
                 (if strictNeq (pointSelectedIndex st) pointIndex then
                    match arrayAt points pointIndex with
                    | Some dp =>
                        if onPointSelected props then [(dp, index)] else []
                    | None => []
                    end
                  else [])) as Hrun.
  { intros st. unfold setFingerPoints. fold points. rewrite Hlast.
    fold pointIndex.
    destruct (strictNeq (pointSelectedIndex st) pointIndex) eqn:Hneq.
    - destruct (arrayAt points pointIndex) as [dp|];
        [destruct (onPointSelected props)|].
      + eexists. exists [(dp, index)]. repeat split; reflexivity.
      + eexists. exists []. rewrite app_nil_r. repeat split; reflexivity.
      + eexists. exists []. rewrite app_nil_r. repeat split; reflexivity.
    - exists st, []. rewrite app_nil_r. repeat split; try reflexivity.
      now apply strictNeq_false. }
  destruct (Hrun st1) as (s1 & calls1 & R1 & I1 & S1 & C1).
  destruct (Hrun st2) as (s2 & calls2 & R2 & I2 & S2 & C2).
  exists s1, s2, calls1, calls2. repeat split; auto.
  - intros Hsame. rewrite C1, C2. now rewrite Hsame.
  - intros Hrem Hnan. rewrite C1, Hrem.
    now rewrite (strictNeq_same _ Hnan).
Qed.

Lemma selection_depends_on_remembered_index_witness :
  exists s1 s2 calls1 calls2,
    setFingerPoints (imports := SpecImports)
      (Examples.graphOf [Examples.threePoints] false) 100 0%nat 50
      initialState = Returned s1
    /\ setFingerPoints (imports := SpecImports)
         (Examples.graphOf [Examples.threePoints] false) 100 0%nat 50
         Examples.selectedAtRightEdge = Returned s2
    /\ pointSelectedIndex s1 = Some (IntZ 1)
    /\ pointSelectedIndex s2 = Some (IntZ 1)
    /\ selected s1 = selected initialState ++ calls1
    /\ selected s2 = selected Examples.selectedAtRightEdge ++ calls2
    /\ (pointSelectedIndex initialState
        = pointSelectedIndex Examples.selectedAtRightEdge ->
        calls1 = calls2)
    /\ (pointSelectedIndex initialState = Some (IntZ 1) -> IntZ 1 <> INaN ->
        calls1 = []).
Proof.
  apply (selection_depends_on_remembered_index (imports := SpecImports)
           (Examples.graphOf [Examples.threePoints] false) 100 0%nat 50
           (Examples.sample 2 10) initialState Examples.selectedAtRightEdge).
  vm_compute. reflexivity.
Defined.

(** C8 as stated fails: on one series, with the same pointer position and
    the same data, the call made after no earlier selection invokes the
    callback, and the call made after an earlier selection at that position
    does not. *)
Lemma selection_callback_depends_on_earlier_calls :
  exists sa sb,
    setFingerPoints (imports := SpecImports)
      (Examples.graphOf [Examples.threePoints] false) 100 0%nat 50
      initialState = Returned sa
    /\ setFingerPoints (imports := SpecImports)
         (Examples.graphOf [Examples.threePoints] false) 100 0%nat 50
         sa = Returned sb
    /\ selected sa = selected initialState ++ [(Examples.sample 1 20, 0%nat)]
    /\ selected sb = selected sa.
Proof.
  exists (stateOf (setFingerPoints (imports := SpecImports)
                     (Examples.graphOf [Examples.threePoints] false) 100
                     0%nat 50 initialState)).
  exists (stateOf (setFingerPoints (imports := SpecImports)
                     (Examples.graphOf [Examples.threePoints] false) 100
                     0%nat 50
                     (stateOf (setFingerPoints (imports := SpecImports)
                                 (Examples.graphOf [Examples.threePoints] false)
                                 100 0%nat 50 initialState)))).
  repeat split; vm_compute; reflexivity.
Qed.

(** C4, at two series of three and of five points on a canvas 100 wide.
    The pointer moves to x = 50 and then to x = 51.  For each series the
    nearest sample is the same at both positions, and so is the index the
    code selects (1 and 2); yet the second move invokes the callback again
    for both series, because the one remembered index was overwritten by
    the other series.  On two series of equal length the converse happens:
    the first move to x = 50 selects index 1 in both series, and the
    callback is invoked for the first series only. *)
Theorem selection_callback_shared_across_series :
  let props := Examples.graphOf [Examples.threePoints; Examples.fivePoints] false in
  let first := onFingerX (imports := SpecImports) props 100 true 50 initialState in
  let second := onFingerX (imports := SpecImports) props 100 true 51 first in
  let twins := Examples.graphOf [Examples.threePoints; Examples.threeOthers] false in
  (nearestSample (imports := SpecImports) props 100 0%nat 50 = Some 1%nat
   /\ nearestSample (imports := SpecImports) props 100 0%nat 51 = Some 1%nat
   /\ nearestSample (imports := SpecImports) props 100 1%nat 50 = Some 2%nat
   /\ nearestSample (imports := SpecImports) props 100 1%nat 51 = Some 2%nat)
  /\ (pointIndexOf (imports := SpecImports) props 100 0%nat 50
        (Examples.sample 2 10) = IntZ 1
      /\ pointIndexOf (imports := SpecImports) props 100 0%nat 51
           (Examples.sample 2 10) = IntZ 1
      /\ pointIndexOf (imports := SpecImports) props 100 1%nat 50
           (Examples.sample 4 1) = IntZ 2
      /\ pointIndexOf (imports := SpecImports) props 100 1%nat 51
           (Examples.sample 4 1) = IntZ 2)
  /\ selected first
     = [(Examples.sample 1 20, 0%nat); (Examples.sample 2 3, 1%nat)]
  /\ selected second
     = selected first
       ++ [(Examples.sample 1 20, 0%nat); (Examples.sample 2 3, 1%nat)]
  /\ nearestSample (imports := SpecImports) twins 100 1%nat 50 = Some 1%nat
  /\ selected (onFingerX (imports := SpecImports) twins 100 true 50 initialState)
     = [(Examples.sample 1 20, 0%nat)].
Proof.
  repeat split; vm_compute; reflexivity.
Qed.

(* ================================================================== *)
(** ** Invariants of the cells *)

Lemma lerp_same (w : Q) (p : Point) : point_equiv (Skia.lerp w p p) p.
Proof. unfold point_equiv, Skia.lerp; simpl. split; ring. Qed.

(** Interpolating a path with itself gives that path, at any weight. *)
Lemma refill_same (w : Q) (p : SkPath) :
  path_equiv (Skia.refill p (Skia.lerpPoints w (Skia.points p) (Skia.points p))) p.
Proof.
  induction p as [|c p IH]; [constructor|].
  destruct c; simpl; constructor; simpl; auto using lerp_same.
Qed.

Lemma interpolate_same (w : Q) (p : SkPath) :
  exists out, Skia.interpolate p p w = Some out /\ path_equiv out p.
Proof.
  rewrite (interpolate_compatible _ _ w (isInterpolatable_refl p)).
  eexists. split; [reflexivity|]. apply refill_same.
Qed.

Lemma nextPair_ok (p fromV : SkPath) : pairOk (nextPair p fromV) = true.
Proof.
  unfold nextPair, pairOk.
  destruct (Skia.isInterpolatable p fromV) eqn:E; cbn; [exact E|].
  apply isInterpolatable_refl.
Qed.

(** A well-formed pair always interpolates. *)
Lemma pairOk_interpolates (pair : CurvePair) (line : SkPath) (w : Q) :
  pairOk pair = true ->
  exists out,
    Skia.interpolate (nullish (to pair) line) (nullish (from pair) line) w
    = Some out.
Proof.
  unfold pairOk. destruct (from pair) as [f|], (to pair) as [t|];
    try discriminate; cbn [nullish]; intros H.
  - rewrite (interpolate_compatible _ _ w H). eauto.
  - rewrite (interpolate_compatible _ _ w (isInterpolatable_refl line)). eauto.
Qed.

Lemma setCommands_frame (ps : list (option SkPath)) :
  forall index st,
    pathsValues (stateOf (setCommands ps index st)) = pathsValues st
    /\ interpolateProgresses (stateOf (setCommands ps index st))
       = interpolateProgresses st
    /\ pointerCells (stateOf (setCommands ps index st)) = pointerCells st.
Proof.
  induction ps as [|[p|] ps IH]; intros index st; cbn [setCommands stateOf];
    try (repeat split; reflexivity).
  destruct (IH (S index)
              (with_commands st (setCell (commands st) index (Skia.toCmds p))))
    as (H1 & H2 & H3).
  now rewrite H1, H2, H3.
Qed.

Lemma publishPaths_frame (ps : list (option SkPath)) :
  forall froms index st,
    commands (stateOf (publishPaths ps froms index st)) = commands st
    /\ interpolateProgresses (stateOf (publishPaths ps froms index st))
       = interpolateProgresses st
    /\ pointerCells (stateOf (publishPaths ps froms index st)) = pointerCells st.
Proof.
  induction ps as [|[p|] ps IH]; intros [|fromV froms] index st;
    cbn [publishPaths stateOf]; try (repeat split; reflexivity).
  destruct (IH froms (S index)
              (with_pathsValues st
                 (setCell (pathsValues st) index (nextPair p fromV))))
    as (H1 & H2 & H3).
  now rewrite H1, H2, H3.
Qed.

Lemma publishPaths_pairs (ps : list (option SkPath)) :
  forall froms index st,
    (forall i, pairOk (pathsValues st i) = true) ->
    forall i, pairOk (pathsValues (stateOf (publishPaths ps froms index st)) i)
              = true.
Proof.
  induction ps as [|[p|] ps IH]; intros [|fromV froms] index st Hok;
    cbn [publishPaths stateOf]; auto.
  apply IH. intros i. cbn [pathsValues with_pathsValues]. unfold setCell.
  destruct (Nat.eqb i index); [apply nextPair_ok|apply Hok].
Qed.

Lemma buildPaths_frame {imports : GraphImports}
  (props : AnimatedLineGraphProps) (width height : Z) (st : GraphState) :
  match buildPaths props width height st with
  | Returned built =>
      pathsValues (snd built) = pathsValues st
      /\ interpolateProgresses (snd built) = interpolateProgresses st
      /\ commands (snd built) = commands st
      /\ pointerCells (snd built) = pointerCells st
  | TypeError st' => st' = st
  end.
Proof.
  unfold buildPaths. destruct (shouldFillGradient props);
    [|repeat split; reflexivity].
  destruct (nth_error _ 0); [repeat split|]; reflexivity.
Qed.

(** X5. However a rebuild ends, it leaves the cells of the pointer as they
    were: the selection dots, the highlighted part of the line, the
    remembered index and the calls made to the callback. *)
Theorem rebuild_keeps_pointer_cells {imports : GraphImports}
  (props : AnimatedLineGraphProps) (width height : Z) (st : GraphState) :
  pointerCells (stateOf (rebuild props width height st)) = pointerCells st.
Proof.
  unfold rebuild.
  destruct ((height <? 1)%Z || (width <? 1)%Z); [reflexivity|].
  destruct (0 <? length _)%nat; [reflexivity|].
  pose proof (buildPaths_frame props width height st) as Hb.
  destruct (buildPaths props width height st) as [[ps st1]|st1];
    cbn [bind fst snd stateOf] in *; [|now subst].
  destruct Hb as (_ & _ & _ & Hb).
  destruct (setCommands_frame ps 0%nat st1) as (_ & _ & H1).
  destruct (setCommands ps 0 st1) as [st2|st2]; cbn [bind stateOf] in *;
    [|congruence].
  rewrite publishGradient_skips. cbn [bind].
  destruct (publishPaths_frame ps (fromValues props width height st2) 0%nat st2)
    as (_ & _ & H2).
  destruct (publishPaths ps _ 0 st2) as [st3|st3]; cbn [bind stateOf] in *;
    [|congruence].
  transitivity (pointerCells st3); [reflexivity|congruence].
Qed.

(** However a rebuild ends, well-formed pairs stay well formed. *)
Lemma rebuild_keeps_pairs {imports : GraphImports}
  (props : AnimatedLineGraphProps) (width height : Z) (st : GraphState) :
  (forall i, pairOk (pathsValues st i) = true) ->
  forall i, pairOk (pathsValues (stateOf (rebuild props width height st)) i) = true.
Proof.
  intros Hok. unfold rebuild.
  destruct ((height <? 1)%Z || (width <? 1)%Z); [exact Hok|].
  destruct (0 <? length _)%nat; [exact Hok|].
  pose proof (buildPaths_frame props width height st) as Hb.
  destruct (buildPaths props width height st) as [[ps st1]|st1];
    cbn [bind fst snd stateOf] in *; [|now subst].
  destruct Hb as (Hb & _).
  destruct (setCommands_frame ps 0%nat st1) as (H1 & _).
  destruct (setCommands ps 0 st1) as [st2|st2]; cbn [bind stateOf] in *;
    [|intros i; now rewrite H1, Hb].
  rewrite publishGradient_skips. cbn [bind].
  assert (forall i, pairOk (pathsValues st2 i) = true) as Hok2
      by (intros i; now rewrite H1, Hb).
  pose proof (publishPaths_pairs ps (fromValues props width height st2)
                0%nat st2 Hok2) as H3.
  destruct (publishPaths ps _ 0 st2) as [st3|st3]; cbn [bind stateOf] in *;
    exact H3.
Qed.

(* ================================================================== *)
(** ** The pointer reaction, series by series *)

Section PointerReaction.

Context {imports : GraphImports}.
Variable props : AnimatedLineGraphProps.
Variable width : Z.
Variable isActive : bool.
Variable fingerX : Q.

Lemma arrayAt_In {A : Type} (xs : list A) (i : JsInt) (x : A) :
  arrayAt xs i = Some x -> In x xs.
Proof.
  destruct i as [z| | |]; cbn; try discriminate.
  destruct (z <? 0)%Z; [discriminate|]. apply nth_error_In.
Qed.

(** What one selection does: it writes the remembered index and makes at
    most one call, for a sample of its own series. *)
Lemma setFingerPoints_effect (index : nat) (st : GraphState) :
  let st' := stateOf (setFingerPoints props width index fingerX st) in
  curveCells st' = curveCells st
  /\ circleXs st' = circleXs st
  /\ circleYs st' = circleYs st
  /\ pathEnds st' = pathEnds st
  /\ exists calls,
       selected st' = selected st ++ calls
       /\ (length calls <= 1)%nat
       /\ Forall (fun call =>
                    snd call = index
                    /\ In (fst call) (nth index (pointsInRanges props) []))
                 calls.
Proof.
  unfold setFingerPoints.
  destruct (nth_error _ (length _ - 1)) as [lastPoint|];
    [|cbn; repeat split; exists []; rewrite app_nil_r; auto].
  destruct (strictNeq _ _);
    [|cbn; repeat split; exists []; rewrite app_nil_r; auto].
  destruct (arrayAt _ _) as [dp|] eqn:Hdp;
    [destruct (onPointSelected props)|];
    cbn; repeat split;
    try (exists []; rewrite app_nil_r; now auto).
  exists [(dp, index)]. repeat split; auto.
  constructor; [|constructor]. split; [reflexivity|].
  cbn [fst]. eapply arrayAt_In, Hdp.
Qed.

Lemma setFingerXs_effect (index : nat) (st : GraphState) :
  let st' := setFingerXs width isActive index fingerX st in
  curveCells st' = curveCells st
  /\ pointSelectedIndex st' = pointSelectedIndex st
  /\ selected st' = selected st
  /\ (forall j, j <> index ->
        circleXs st' j = circleXs st j /\ circleYs st' j = circleYs st j
        /\ pathEnds st' j = pathEnds st j)
  /\ (forall y, getYForX (commands st index) fingerX = Some y ->
        circleXs st' index = fingerX /\ circleYs st' index = y)
  /\ (getYForX (commands st index) fingerX = None ->
        circleXs st' index = circleXs st index
        /\ circleYs st' index = circleYs st index)
  /\ pathEnds st' index
     = (if isActive then jsDiv fingerX (inject_Z width) else pathEnds st index).
Proof.
  unfold setFingerXs.
  destruct (getYForX (commands st index) fingerX) as [y|], isActive;
    cbn; repeat split; try discriminate;
    try (apply setCell_other; assumption);
    try (match goal with
         | H : Some _ = Some _ |- _ => injection H as <-
         end);
    try apply setCell_same; try reflexivity.
Qed.

(** The step of the reaction for one series. *)
Lemma reaction_step_effect (index : nat) (st : GraphState) :
  let st' := stateOf (setFingerPoints props width index fingerX
                        (setFingerXs width isActive index fingerX st)) in
  curveCells st' = curveCells st
  /\ (forall j, j <> index ->
        circleXs st' j = circleXs st j /\ circleYs st' j = circleYs st j
        /\ pathEnds st' j = pathEnds st j)
  /\ (forall y, getYForX (commands st index) fingerX = Some y ->
        circleXs st' index = fingerX /\ circleYs st' index = y)
  /\ (getYForX (commands st index) fingerX = None ->
        circleXs st' index = circleXs st index
        /\ circleYs st' index = circleYs st index)
  /\ pathEnds st' index
     = (if isActive then jsDiv fingerX (inject_Z width) else pathEnds st index)
  /\ exists calls,
       selected st' = selected st ++ calls
       /\ (length calls <= 1)%nat
       /\ Forall (fun call =>
                    snd call = index
                    /\ In (fst call) (nth index (pointsInRanges props) []))
                 calls.
Proof.
  intros st'. subst st'.
  destruct (setFingerXs_effect index st) as (X1 & _ & X3 & X4 & X5 & X6 & X7).
  destruct (setFingerPoints_effect index
              (setFingerXs width isActive index fingerX st))
    as (P1 & P2 & P3 & P4 & calls & P5 & P6 & P7).
  rewrite P1, P2, P3, P4. repeat split; auto;
    try (eapply X4; eassumption);
    try (eapply X5; eassumption);
    try (eapply X6; eassumption).
  exists calls. rewrite P5, X3. auto.
Qed.

(** The reaction over a list of distinct series. *)
Lemma reaction_fold_effect (indices : list nat) :
  NoDup indices ->
  forall st,
    let st' :=
      fold_left
        (fun st index =>
           stateOf (setFingerPoints props width index fingerX
                      (setFingerXs width isActive index fingerX st)))
        indices st in
    curveCells st' = curveCells st
    /\ (forall j, ~ In j indices ->
          circleXs st' j = circleXs st j /\ circleYs st' j = circleYs st j
          /\ pathEnds st' j = pathEnds st j)
    /\ (forall index, In index indices ->
          (forall y, getYForX (commands st index) fingerX = Some y ->
             circleXs st' index = fingerX /\ circleYs st' index = y)
          /\ (getYForX (commands st index) fingerX = None ->
              circleXs st' index = circleXs st index
              /\ circleYs st' index = circleYs st index)
          /\ pathEnds st' index
             = (if isActive then jsDiv fingerX (inject_Z width)
                else pathEnds st index))
    /\ exists calls,
         selected st' = selected st ++ calls
         /\ (length calls <= length indices)%nat
         /\ Forall (fun call =>
                      In (snd call) indices
                      /\ In (fst call)
                            (nth (snd call) (pointsInRanges props) []))
                   calls.
Proof.
  induction 1 as [|a indices Ha Hnd IH]; intros st; cbn [fold_left].
  - repeat split; auto; try contradiction.
    exists []. rewrite app_nil_r. auto.
  - destruct (reaction_step_effect a st)
      as (S1 & S2 & S3 & S4 & S5 & calls1 & S6 & S7 & S8).
    set (st1 := stateOf (setFingerPoints props width a fingerX
                           (setFingerXs width isActive a fingerX st))) in *.
    destruct (IH st1) as (F1 & F2 & F3 & calls2 & F4 & F5 & F6).
    assert (commands st1 = commands st) as Hcmd
        by (unfold curveCells in S1; congruence).
    split; [congruence|]. split; [|split].
    + intros j Hj.
      assert (j <> a) as Hne by (intros ->; apply Hj; now left).
      assert (~ In j indices) as Hout by (intros Hin; apply Hj; now right).
      destruct (F2 j Hout) as (E1 & E2 & E3).
      destruct (S2 j Hne) as (G1 & G2 & G3).
      rewrite E1, E2, E3. auto.
    + intros index [<-|Hin].
      * destruct (F2 a Ha) as (E1 & E2 & E3). rewrite E1, E2, E3.
        split; [exact S3|]. split; [exact S4|exact S5].
      * assert (index <> a) as Hne by (intros ->; contradiction).
        destruct (F3 index Hin) as (G1 & G2 & G3).
        destruct (S2 index Hne) as (E1 & E2 & E3).
        rewrite Hcmd in G1, G2. rewrite E1, E2 in G2. rewrite E3 in G3.
        split; [exact G1|]. split; [exact G2|exact G3].
    + exists (calls1 ++ calls2). split; [|split].
      * rewrite F4, S6. now rewrite app_assoc.
      * rewrite length_app. cbn [length]. lia.
      * apply Forall_app. split.
        -- eapply Forall_impl; [|exact S8].
           intros call [E Hin]. rewrite E. split; [now left|exact Hin].
        -- eapply Forall_impl; [|exact F6].
           intros call [E Hin]. split; [now right|exact Hin].
Qed.

(** The calls of the reaction: at most one for each series. *)
Lemma reaction_fold_calls (indices : list nat) :
  NoDup indices ->
  forall st,
  exists calls,
    selected
      (fold_left
         (fun st index =>
            stateOf (setFingerPoints props width index fingerX
                       (setFingerXs width isActive index fingerX st)))
         indices st)
    = selected st ++ calls
    /\ NoDup (map snd calls)
    /\ Forall (fun call =>
                 In (snd call) indices
                 /\ In (fst call) (nth (snd call) (pointsInRanges props) []))
              calls.
Proof.
  induction 1 as [|a indices Ha Hnd IH]; intros st; cbn [fold_left].
  - exists []. rewrite app_nil_r. repeat split; constructor.
  - destruct (reaction_step_effect a st)
      as (_ & _ & _ & _ & _ & calls1 & S6 & S7 & S8).
    set (st1 := stateOf (setFingerPoints props width a fingerX
                           (setFingerXs width isActive a fingerX st))) in *.
    destruct (IH st1) as (calls2 & F4 & F5 & F6).
    exists (calls1 ++ calls2). split; [|split].
    + rewrite F4, S6. now rewrite app_assoc.
    + rewrite map_app.
      assert (~ In a (map snd calls2)) as Hfresh.
      { intros Hin. apply in_map_iff in Hin as (call & <- & Hcall).
        rewrite Forall_forall in F6. now destruct (F6 call Hcall). }
      destruct calls1 as [|call1 [|call1' rest]]; [exact F5| |cbn in S7; lia].
      apply Forall_inv in S8. destruct S8 as [Hsnd _].
      cbn [map app]. rewrite Hsnd. now constructor.
    + apply Forall_app. split.
      * eapply Forall_impl; [|exact S8].
        intros call [E Hin]. rewrite E. split; [now left|exact Hin].
      * eapply Forall_impl; [|exact F6].
        intros call [E Hin]. split; [now right|exact Hin].
Qed.

End PointerReaction.

(** X6. A pointer reaction never writes a cell of the curves: the pairs,
    the gradient pair, the commands and the progresses are as they were. *)
Theorem onFingerX_keeps_curve_cells {imports : GraphImports}
  (props : AnimatedLineGraphProps) (width : Z) (isActive : bool) (fingerX : Q)
  (st : GraphState) :
  curveCells (onFingerX props width isActive fingerX st) = curveCells st.
Proof.
  unfold onFingerX. destruct (isActive || truthy fingerX); [|reflexivity].
  now destruct (reaction_fold_effect props width isActive fingerX
                  (seq 0 (length (allPoints props))) (seq_NoDup _ _) st).
Qed.

(** X7. When the reaction runs (the gesture is active or the pointer's x is
    not 0), every series' selection dot moves to the pointer's x at the
    height the sampler gives for that series' commands, and stays where it
    was when the sampler gives nothing; the highlighted part of every line
    becomes [fingerX / width] when the gesture is active and is left alone
    when it is not.  Cells of indices that are no series are not written. *)
Theorem onFingerX_moves_every_dot {imports : GraphImports}
  (props : AnimatedLineGraphProps) (width : Z) (isActive : bool) (fingerX : Q)
  (st : GraphState) :
  isActive || truthy fingerX = true ->
  let st' := onFingerX props width isActive fingerX st in
  (forall index, (index < length (allPoints props))%nat ->
     (forall y, getYForX (commands st index) fingerX = Some y ->
        circleXs st' index = fingerX /\ circleYs st' index = y)
     /\ (getYForX (commands st index) fingerX = None ->
         circleXs st' index = circleXs st index
         /\ circleYs st' index = circleYs st index)
     /\ pathEnds st' index
        = (if isActive then jsDiv fingerX (inject_Z width)
           else pathEnds st index))
  /\ (forall j, (length (allPoints props) <= j)%nat ->
        circleXs st' j = circleXs st j /\ circleYs st' j = circleYs st j
        /\ pathEnds st' j = pathEnds st j).
Proof.
  intros Hgate st'. subst st'. unfold onFingerX. rewrite Hgate.
  destruct (reaction_fold_effect props width isActive fingerX
              (seq 0 (length (allPoints props))) (seq_NoDup _ _) st)
    as (_ & Hout & Hin & _).
  split.
  - intros index Hlt. apply Hin. apply in_seq. lia.
  - intros j Hj. apply Hout. rewrite in_seq. lia.
Qed.

Lemma onFingerX_moves_every_dot_witness :
  (forall index, (index < 1)%nat ->
     (forall y,
        GetYForX.getYForX (commands Examples.midTransition index) 50 = Some y ->
        circleXs (onFingerX (imports := SpecImports)
                    (Examples.graphOf [Examples.threeOthers] false) 100 true 50
                    Examples.midTransition) index = 50
        /\ circleYs (onFingerX (imports := SpecImports)
                       (Examples.graphOf [Examples.threeOthers] false) 100 true 50
                       Examples.midTransition) index = y)
     /\ (GetYForX.getYForX (commands Examples.midTransition index) 50 = None ->
         circleXs (onFingerX (imports := SpecImports)
                    (Examples.graphOf [Examples.threeOthers] false) 100 true 50
                    Examples.midTransition) index
         = circleXs Examples.midTransition index
         /\ circleYs (onFingerX (imports := SpecImports)
                       (Examples.graphOf [Examples.threeOthers] false) 100 true 50
                       Examples.midTransition) index
            = circleYs Examples.midTransition index)
     /\ pathEnds (onFingerX (imports := SpecImports)
                    (Examples.graphOf [Examples.threeOthers] false) 100 true 50
                    Examples.midTransition) index
        = jsDiv 50 (inject_Z 100))
  /\ (forall j, (1 <= j)%nat ->
        circleXs (onFingerX (imports := SpecImports)
                    (Examples.graphOf [Examples.threeOthers] false) 100 true 50
                    Examples.midTransition) j
        = circleXs Examples.midTransition j
        /\ circleYs (onFingerX (imports := SpecImports)
                       (Examples.graphOf [Examples.threeOthers] false) 100 true 50
                       Examples.midTransition) j
           = circleYs Examples.midTransition j
        /\ pathEnds (onFingerX (imports := SpecImports)
                       (Examples.graphOf [Examples.threeOthers] false) 100 true 50
                       Examples.midTransition) j
           = pathEnds Examples.midTransition j).
Proof.
  apply (onFingerX_moves_every_dot (imports := SpecImports)
           (Examples.graphOf [Examples.threeOthers] false) 100 true 50
           Examples.midTransition).
  reflexivity.
Defined.

(** X9. A pointer reaction only adds calls to the callback, at most one
    for each series (no series index occurs twice among the added calls),
    and each call names a series of the graph and carries one of that
    series' points in range. *)
Theorem onFingerX_reports_own_samples {imports : GraphImports}
  (props : AnimatedLineGraphProps) (width : Z) (isActive : bool) (fingerX : Q)
  (st : GraphState) :
  exists calls,
    selected (onFingerX props width isActive fingerX st) = selected st ++ calls
    /\ NoDup (map snd calls)
    /\ Forall (fun call =>
                 (snd call < length (allPoints props))%nat
                 /\ In (fst call) (nth (snd call) (pointsInRanges props) []))
              calls.
Proof.
  unfold onFingerX. destruct (isActive || truthy fingerX).
  - destruct (reaction_fold_calls props width isActive fingerX
                (seq 0 (length (allPoints props))) (seq_NoDup _ _) st)
      as (calls & Hsel & Hnd & Hall).
    exists calls. split; [exact Hsel|]. split; [exact Hnd|].
    eapply Forall_impl; [|exact Hall].
    intros call [Hin Hp]. apply in_seq in Hin. split; [lia|exact Hp].
  - exists []. rewrite app_nil_r. repeat split; constructor.
Qed.

(* ================================================================== *)
(** ** The selected index *)

Lemma mathMaxQ_nonneg (x : Q) : 0 <= mathMaxQ x 0.
Proof.
  unfold mathMaxQ. destruct (Qle_bool x 0) eqn:E; [apply Qle_refl|].
  apply Qlt_le_weak, Qnot_le_lt. intros H. apply Qle_bool_iff in H. congruence.
Qed.

Lemma mathMaxQ_zero_iff (x : Q) : mathMaxQ x 0 == 0 <-> x <= 0.
Proof.
  unfold mathMaxQ. destruct (Qle_bool x 0) eqn:E.
  - apply Qle_bool_iff in E. split; [intros _; exact E|reflexivity].
  - split; intros H.
    + rewrite H. apply Qle_refl.
    + apply Qle_bool_iff in H. congruence.
Qed.

Lemma last_index_some {A : Type} (xs : list A) :
  xs <> [] -> exists x, nth_error xs (length xs - 1) = Some x.
Proof.
  intros Hne. destruct (nth_error xs (length xs - 1)) eqn:E; [eauto|].
  apply nth_error_None in E. destruct xs; [contradiction|cbn in E; lia].
Qed.

Lemma inject_Z_compare_0 (k : Z) : (inject_Z k ?= 0) = (k ?= 0)%Z.
Proof. unfold Qcompare. cbn. now rewrite Z.mul_1_r. Qed.

Section SelectedIndex.

Context {imports : GraphImports}.
Variable props : AnimatedLineGraphProps.
Variable width : Z.
Variable index : nat.
Variable fingerX : Q.
Variable lastPoint : GraphPoint.

(** X8. The selection of a series raises exactly when the series has no
    point in range (reading the date of its last point fails), and then no
    cell is written. *)
Theorem setFingerPoints_raises_iff_empty (st : GraphState) :
  ((exists st', setFingerPoints props width index fingerX st = TypeError st')
   <-> nth index (pointsInRanges props) [] = [])
  /\ (forall st',
        setFingerPoints props width index fingerX st = TypeError st' ->
        st' = st).
Proof.
  unfold setFingerPoints.
  destruct (nth index (pointsInRanges props) []) as [|p0 points] eqn:Hp.
  - cbn. split; [split; eauto|]. now intros st' [= <-].
  - destruct (last_index_some (p0 :: points)) as (lp & ->); [discriminate|].
    assert (forall st',
              (if strictNeq (pointSelectedIndex st)
                    (pointIndexOf props width index fingerX lp)
               then
                 match arrayAt (p0 :: points)
                         (pointIndexOf props width index fingerX lp) with
                 | Some dp =>
                     if onPointSelected props
                     then Returned
                            (with_selected
                               (with_pointSelectedIndex st
                                  (Some (pointIndexOf props width index fingerX lp)))
                               (selected
                                  (with_pointSelectedIndex st
                                     (Some (pointIndexOf props width index
                                              fingerX lp)))
                                ++ [(dp, index)]))
                     else Returned
                            (with_pointSelectedIndex st
                               (Some (pointIndexOf props width index fingerX lp)))
                 | None =>
                     Returned
                       (with_pointSelectedIndex st
                          (Some (pointIndexOf props width index fingerX lp)))
                 end
               else Returned st) <> TypeError st') as Hret.
    { intros st'. destruct (strictNeq _ _); [|discriminate].
      destruct (arrayAt _ _); [destruct (onPointSelected props)|];
        discriminate. }
    split; [split|].
    + intros (st' & H). now apply Hret in H.
    + discriminate.
    + intros st' H. now apply Hret in H.
Qed.

Hypothesis some_point : nth index (pointsInRanges props) [] <> [].

Lemma last_index_nonneg :
  (0 <= Z.of_nat (length (nth index (pointsInRanges props) [])) - 1)%Z.
Proof.
  pose proof some_point as H.
  destruct (nth index (pointsInRanges props) []); [now contradiction H|].
  cbn [length]. lia.
Qed.

(** X10. For a series with a point in range the selected index is [NaN]
    or an index of the series; it is [NaN] exactly when the line has zero
    width and the pointer is at or left of the padding or the series has a
    single point. *)
Theorem pointIndexOf_range :
  let points := nth index (pointsInRanges props) [] in
  let lineEnd :=
    getXInRange (drawingWidth props width) (date lastPoint)
      (range_x (nth index (pathRanges props) noRange)) in
  let pointIndex := pointIndexOf props width index fingerX lastPoint in
  (pointIndex = INaN
   \/ exists z, pointIndex = IntZ z
                /\ (0 <= z <= Z.of_nat (length points) - 1)%Z)
  /\ (pointIndex = INaN
      <-> lineEnd == 0
          /\ (fingerX <= horizontalPadding props \/ length points = 1%nat)).
Proof.
  intros points lineEnd pointIndex. subst pointIndex.
  unfold pointIndexOf. fold points lineEnd.
  pose proof last_index_nonneg as Hk. fold points in Hk.
  set (k := (Z.of_nat (length points) - 1)%Z) in *.
  set (a := mathMaxQ (fingerX - horizontalPadding props) 0).
  pose proof (mathMaxQ_nonneg (fingerX - horizontalPadding props)) as Ha.
  pose proof (mathMaxQ_zero_iff (fingerX - horizontalPadding props)) as Hz.
  fold a in Ha, Hz.
  assert (fingerX - horizontalPadding props <= 0
          <-> fingerX <= horizontalPadding props) as Hshift.
  { split; intros H.
    - apply Qle_minus_iff in H. apply Qle_minus_iff.
      setoid_replace (horizontalPadding props + - fingerX)
        with (0 + - (fingerX - horizontalPadding props)) by ring. exact H.
    - apply Qle_minus_iff in H. apply Qle_minus_iff.
      setoid_replace (0 + - (fingerX - horizontalPadding props))
        with (horizontalPadding props + - fingerX) by ring. exact H. }
  unfold jsDiv. destruct (Qeq_bool lineEnd 0) eqn:HL.
  - apply Qeq_bool_iff in HL.
    destruct (a ?= 0) eqn:Hc.
    + apply Qeq_alt in Hc. cbn. split; [now left|].
      split; [intros _|reflexivity].
      split; [exact HL|]. left. apply Hshift, Hz, Hc.
    + apply Qlt_alt in Hc. exfalso. now apply (Qlt_not_le a 0).
    + apply Qgt_alt in Hc. cbn [jsMul].
      rewrite inject_Z_compare_0.
      destruct (Z.compare_spec k 0) as [Hk0|Hk0|Hk0]; [| lia |].
      * cbn. split; [now left|]. split; [intros _|reflexivity].
        split; [exact HL|]. right. subst k. lia.
      * cbn. split.
        -- right. exists k. split; [reflexivity|lia].
        -- split; [discriminate|].
           intros [_ [Hle|Hone]]; exfalso.
           ++ apply Hshift, Hz in Hle. rewrite Hle in Hc.
              now apply (Qlt_irrefl 0).
           ++ subst k. lia.
  - cbn. split.
    + right. eexists. split; [reflexivity|lia].
    + split; [discriminate|]. intros [H0 _].
      apply Qeq_bool_iff in H0. congruence.
Qed.

(** X11. With a line of non-zero width, a pointer at or left of the
    padding selects the first sample; with a line of positive width, a
    pointer at or past the end of the line selects the last one. *)
Theorem pointIndexOf_clamps :
  let points := nth index (pointsInRanges props) [] in
  let lineEnd :=
    getXInRange (drawingWidth props width) (date lastPoint)
      (range_x (nth index (pathRanges props) noRange)) in
  (~ lineEnd == 0 -> fingerX <= horizontalPadding props ->
   pointIndexOf props width index fingerX lastPoint = IntZ 0)
  /\ (0 < lineEnd -> lineEnd <= fingerX - horizontalPadding props ->
      pointIndexOf props width index fingerX lastPoint
      = IntZ (Z.of_nat (length points) - 1)).
Proof.
  intros points lineEnd.
  pose proof last_index_nonneg as Hk. fold points in Hk.
  unfold pointIndexOf. fold points lineEnd.
  set (k := (Z.of_nat (length points) - 1)%Z) in *.
  split.
  - intros HL Hleft.
    assert (mathMaxQ (fingerX - horizontalPadding props) 0 = 0) as ->.
    { unfold mathMaxQ.
      assert (fingerX - horizontalPadding props <= 0) as H.
      { apply Qle_minus_iff.
        setoid_replace (0 + - (fingerX - horizontalPadding props))
          with (horizontalPadding props + - fingerX) by ring.
        now apply Qle_minus_iff in Hleft. }
      apply Qle_bool_iff in H. now rewrite H. }
    unfold jsDiv. destruct (Qeq_bool lineEnd 0) eqn:E;
      [apply Qeq_bool_iff in E; contradiction|].
    cbn [jsMul mathRound mathMax mathMin]. unfold mathRoundQ.
    assert (0 / lineEnd * inject_Z k + (1 # 2) == 1 # 2) as Hv
        by (unfold Qdiv; ring).
    rewrite (Qfloor_comp _ _ Hv).
    change (Qfloor (1 # 2)) with 0%Z. f_equal. lia.
  - intros Hpos Hright.
    assert (mathMaxQ (fingerX - horizontalPadding props) 0
            = fingerX - horizontalPadding props) as ->.
    { unfold mathMaxQ.
      destruct (Qle_bool (fingerX - horizontalPadding props) 0) eqn:E;
        [|reflexivity].
      apply Qle_bool_iff in E. exfalso.
      apply (Qlt_not_le 0 lineEnd Hpos). eapply Qle_trans; eassumption. }
    unfold jsDiv. destruct (Qeq_bool lineEnd 0) eqn:E.
    { apply Qeq_bool_iff in E. rewrite E in Hpos.
      exfalso. now apply (Qlt_irrefl 0). }
    cbn [jsMul mathRound mathMax mathMin]. unfold mathRoundQ.
    set (v := (fingerX - horizontalPadding props) / lineEnd * inject_Z k
              + (1 # 2)).
    assert (inject_Z k <= v) as Hv.
    { subst v.
      assert (1 <= (fingerX - horizontalPadding props) / lineEnd) as Hratio.
      { apply Qle_shift_div_l; [exact Hpos|]. now rewrite Qmult_1_l. }
      assert (0 <= inject_Z k) as Hk'
          by (change 0 with (inject_Z 0); now rewrite <- Zle_Qle).
      pose proof (Qmult_le_compat_r _ _ (inject_Z k) Hratio Hk') as Hm.
      rewrite Qmult_1_l in Hm.
      eapply Qle_trans; [exact Hm|].
      rewrite <- (Qplus_0_r ((fingerX - horizontalPadding props) / lineEnd
                             * inject_Z k)) at 1.
      apply Qplus_le_r. discriminate. }
    apply Qfloor_resp_le in Hv. rewrite Qfloor_Z in Hv.
    f_equal. lia.
Qed.

End SelectedIndex.

Lemma pointIndexOf_range_witness :
  pointIndexOf (imports := SpecImports)
    (Examples.graphOf [Examples.threePoints] false) 100 0%nat 50
    (Examples.sample 2 10) = INaN
  \/ exists z,
       pointIndexOf (imports := SpecImports)
         (Examples.graphOf [Examples.threePoints] false) 100 0%nat 50
         (Examples.sample 2 10) = IntZ z
       /\ (0 <= z <= 3 - 1)%Z.
Proof.
  refine (proj1 (pointIndexOf_range (imports := SpecImports)
                   (Examples.graphOf [Examples.threePoints] false) 100 0%nat 50
                   (Examples.sample 2 10) _)).
  vm_compute. discriminate.
Defined.

Lemma pointIndexOf_clamps_witness :
  pointIndexOf (imports := SpecImports)
    (Examples.graphOf [Examples.threePoints] false) 100 0%nat 120
    (Examples.sample 2 10) = IntZ 2.
Proof.
  refine (proj2 (pointIndexOf_clamps (imports := SpecImports)
                   (Examples.graphOf [Examples.threePoints] false) 100 0%nat 120
                   (Examples.sample 2 10) _) _ _).
  - vm_compute. discriminate.
  - vm_compute. reflexivity.
  - vm_compute. discriminate.
Defined.

(** X12. For a series whose last point in range is [lastPoint], the
    indicator's x is [floor(lineWidth) + horizontalPadding], where
    [lineWidth] is [getXInRange] of that point's date clamped below at 0:
    a whole number of pixels, never left of the padding and never past the
    end of the line. *)
Theorem indicatorXs_right_of_padding {imports : GraphImports}
  (props : AnimatedLineGraphProps) (width : Z) (index : nat)
  (lastPoint : GraphPoint) :
  let points := nth index (pointsInRanges props) [] in
  let lineWidth :=
    mathMaxQ (getXInRange (drawingWidth props width) (date lastPoint)
                (range_x (nth index (pathRanges props) noRange))) 0 in
  (index < length (allPoints props))%nat ->
  nth_error points (length points - 1) = Some lastPoint ->
  nth_error (indicatorXs props width) index
  = Some (inject_Z (mathFloor lineWidth) + horizontalPadding props)
  /\ (0 <= mathFloor lineWidth)%Z
  /\ horizontalPadding props
     <= inject_Z (mathFloor lineWidth) + horizontalPadding props
  /\ inject_Z (mathFloor lineWidth) + horizontalPadding props
     <= lineWidth + horizontalPadding props.
Proof.
  intros points lineWidth Hlt Hlp.
  assert (0 <= mathFloor lineWidth)%Z as Hfloor.
  { unfold mathFloor. change 0%Z with (Qfloor 0).
    apply Qfloor_resp_le. apply mathMaxQ_nonneg. }
  split; [|split; [exact Hfloor|split]].
  - unfold indicatorXs, lineWidths.
    rewrite nth_error_map, mapi_nth_error.
    destruct (nth_error (allPoints props) index) eqn:E;
      [|apply nth_error_None in E; lia].
    cbn [option_map]. fold points. now rewrite Hlp.
  - rewrite <- (Qplus_0_l (horizontalPadding props)) at 1.
    apply Qplus_le_l. change 0 with (inject_Z 0). now rewrite <- Zle_Qle.
  - apply Qplus_le_l. apply Qfloor_le.
Qed.

Lemma indicatorXs_right_of_padding_witness :
  nth_error (indicatorXs (imports := SpecImports) Examples.windowBeyondData 120)
            0%nat
  = Some (inject_Z 66 + 10).
Proof.
  refine (proj1 (indicatorXs_right_of_padding (imports := SpecImports)
                   Examples.windowBeyondData 120 0%nat
                   (Examples.sample 2 10) _ _)).
  - simpl. lia.
  - vm_compute. reflexivity.
Defined.

(* ================================================================== *)
(** ** The gradient stops and the pulse *)

(** X13. While the gesture is active and the pointer is inside a canvas of
    positive width, the five stops of a series' stroke gradient after the
    worklet ran are 0, the lesser of 0.15 and [fingerX / width],
    [fingerX / width] twice, and 1: all finite, between 0 and 1 and in
    order. *)
Theorem positions_ordered_while_panning {imports : GraphImports}
  (width : Z) (index : nat) (fingerX : Q) (st : GraphState) :
  (0 < width)%Z ->
  0 <= fingerX -> fingerX <= inject_Z width ->
  let pathEnd := fingerX / inject_Z width in
  let fade := if Qle_bool (15 # 100) pathEnd then 15 # 100 else pathEnd in
  positions (setFingerXs width true index fingerX st) index
  = [Fin 0; Fin fade; Fin pathEnd; Fin pathEnd; Fin 1]
  /\ (15 # 100 <= pathEnd -> fade = 15 # 100)
  /\ (pathEnd < 15 # 100 -> fade = pathEnd)
  /\ 0 <= fade /\ fade <= pathEnd /\ pathEnd <= 1.
Proof.
  intros Hw Hlo Hhi pathEnd fade.
  assert (0 < inject_Z width) as Hwq
      by (change 0 with (inject_Z 0); now rewrite <- Zlt_Qlt).
  assert (pathEnds (setFingerXs width true index fingerX st) index
          = Fin pathEnd) as Hend.
  { unfold setFingerXs.
    destruct (getYForX (commands st index) fingerX);
      cbn [pathEnds with_pathEnds with_circle]; rewrite setCell_same;
      unfold jsDiv;
      (destruct (Qeq_bool (inject_Z width) 0) eqn:E; [|reflexivity]);
      apply Qeq_bool_iff in E; rewrite E in Hwq;
      now apply Qlt_irrefl in Hwq. }
  assert (0 <= pathEnd) as H0.
  { apply Qle_shift_div_l; [exact Hwq|]. now rewrite Qmult_0_l. }
  assert (pathEnd <= 1) as H1.
  { apply Qle_shift_div_r; [exact Hwq|]. now rewrite Qmult_1_l. }
  split; [unfold positions; rewrite Hend; reflexivity|].
  subst fade. destruct (Qle_bool (15 # 100) pathEnd) eqn:E.
  - apply Qle_bool_iff in E. repeat split; auto; try discriminate.
    intros Hlt. exfalso. now apply (Qlt_not_le _ _ Hlt).
  - assert (pathEnd < 15 # 100) as Hlt.
    { apply Qnot_le_lt. intros H. apply Qle_bool_iff in H. congruence. }
    repeat split; auto; try apply Qle_refl.
    intros Hge. exfalso. now apply (Qlt_not_le _ _ Hlt).
Qed.

Lemma positions_ordered_while_panning_witness :
  positions (setFingerXs (imports := SpecImports) 100 true 0%nat 50
               Examples.midTransition) 0%nat
  = [Fin 0; Fin (15 # 100); Fin (50 / inject_Z 100); Fin (50 / inject_Z 100);
     Fin 1].
Proof.
  refine (proj1 (positions_ordered_while_panning (imports := SpecImports)
                   100 0%nat 50 Examples.midTransition _ _ _)).
  - lia.
  - vm_compute. discriminate.
  - vm_compute. discriminate.
Defined.

(** X15. The pulse around the indicator: while the gesture is active its
    radius and opacity are 0; otherwise, for an animation value between 0
    and 1, the radius lies between the small and the big blur radius (9.1
    and 29.1) and the opacity is one minus the animation value, so the
    pulse fades as it grows. *)
Theorem indicatorPulse_bounds (indicatorPulseAnimation : Q) :
  0 <= indicatorPulseAnimation -> indicatorPulseAnimation <= 1 ->
  indicatorPulseRadius true indicatorPulseAnimation = 0
  /\ indicatorPulseOpacity true indicatorPulseAnimation = 0
  /\ 91 # 10 <= indicatorPulseRadius false indicatorPulseAnimation
  /\ indicatorPulseRadius false indicatorPulseAnimation <= 291 # 10
  /\ indicatorPulseRadius false indicatorPulseAnimation
     == (91 # 10) + 20 * indicatorPulseAnimation
  /\ indicatorPulseOpacity false indicatorPulseAnimation
     == 1 - indicatorPulseAnimation.
Proof.
  intros H0 H1.
  assert (indicatorPulseRadius false indicatorPulseAnimation
          == (91 # 10) + 20 * indicatorPulseAnimation) as Hr.
  { unfold indicatorPulseRadius, pulseTrigger. cbn [Qeq_bool].
    change (Qeq_bool 0 0) with true. cbn iota.
    unfold mix, INDICATOR_PULSE_BLUR_RADIUS_SMALL,
      INDICATOR_PULSE_BLUR_RADIUS_BIG, INDICATOR_RADIUS,
      INDICATOR_BORDER_MULTIPLIER. ring. }
  repeat split; try reflexivity; try exact Hr.
  - rewrite Hr. lra.
  - rewrite Hr. lra.
  - unfold indicatorPulseOpacity, pulseTrigger.
    change (Qeq_bool 0 0) with true. cbn iota. unfold mix. ring.
Qed.

Lemma indicatorPulse_bounds_witness :
  indicatorPulseRadius true (1 # 2) = 0
  /\ indicatorPulseOpacity true (1 # 2) = 0
  /\ 91 # 10 <= indicatorPulseRadius false (1 # 2)
  /\ indicatorPulseRadius false (1 # 2) <= 291 # 10
  /\ indicatorPulseRadius false (1 # 2) == (91 # 10) + 20 * (1 # 2)
  /\ indicatorPulseOpacity false (1 # 2) == 1 - (1 # 2).
Proof.
  apply (indicatorPulse_bounds (1 # 2)); vm_compute; discriminate.
Defined.

(* ================================================================== *)
(** ** The indicator's visibility *)

Lemma bumpCommandsChanged_NaN (commandsChanged : list JsNum) :
  bumpCommandsChanged commandsChanged = repeat NaN (length commandsChanged).
Proof.
  unfold bumpCommandsChanged, mapi. generalize 0%nat.
  induction commandsChanged as [|c cs IH]; intros start; [reflexivity|].
  cbn. now rewrite IH.
Qed.

Lemma indicatorsVisible_NaN (enableIndicator : bool) (n : nat) :
  indicatorsVisible enableIndicator (repeat NaN n) = repeat false n.
Proof.
  induction n as [|n IH]; [reflexivity|].
  cbn. unfold indicatorsVisible in IH. rewrite IH.
  now destruct enableIndicator.
Qed.

Lemma indicatorsVisible_zero (enableIndicator : bool) (n : nat) :
  indicatorsVisible enableIndicator (repeat (Fin 0) n) = repeat false n.
Proof.
  induction n as [|n IH]; [reflexivity|].
  cbn. unfold indicatorsVisible in IH. rewrite IH.
  now destruct enableIndicator.
Qed.

(** X16. The indicator is never flagged visible: the counters start at 0,
    every completed rebuild sets them to [NaN] (it adds 1 to an indexed
    property of a number), and neither is greater than 0, whether or not
    the indicator is enabled and however many rebuilds ran. *)
Theorem indicatorsVisible_never (enableIndicator : bool) (series rebuilds : nat) :
  indicatorsVisible enableIndicator
    (Nat.iter rebuilds bumpCommandsChanged (repeat (Fin 0) series))
  = repeat false series.
Proof.
  destruct rebuilds as [|rebuilds]; [apply indicatorsVisible_zero|].
  rewrite Nat.iter_succ, bumpCommandsChanged_NaN.
  assert (length (Nat.iter rebuilds bumpCommandsChanged (repeat (Fin 0) series))
          = series) as ->.
  { induction rebuilds as [|r IH].
    - apply repeat_length.
    - rewrite Nat.iter_succ. unfold bumpCommandsChanged.
      now rewrite mapi_length. }
  apply indicatorsVisible_NaN.
Qed.

(* ================================================================== *)
(** ** The static graph *)

(** X17. The static graph builds its path from the first series alone, and
    it is the very path the animated graph builds for its first series
    (gradient fill off) when both are given the same points and range, the
    same layout, and the animated graph's paddings equal the static line
    thickness. *)
Theorem staticPath_is_first_animated_path {imports : GraphImports}
  (static : StaticLineGraphProps) (animated : AnimatedLineGraphProps)
  (width height : Z) :
  static_points static = allPoints animated ->
  static_range static = range animated ->
  horizontalPadding animated = lineThickness static ->
  verticalPadding animated = lineThickness static ->
  shouldFillGradient animated = false ->
  staticConfig static width height
  = nth_error (createGraphPathProps animated width height) 0
  /\ staticPath static width height
     = option_map (freshPath animated)
         (nth_error (createGraphPathProps animated width height) 0).
Proof.
  intros Hp Hr Hh Hv Hg.
  assert (staticConfig static width height
          = nth_error (createGraphPathProps animated width height) 0) as Hcfg.
  { unfold staticConfig, createGraphPathProps, pointsInRanges, pathRanges, mapi.
    rewrite Hp, Hr, Hh, Hv.
    destruct (allPoints animated) as [|points0 rest]; reflexivity. }
  split; [exact Hcfg|].
  unfold staticPath. rewrite Hcfg. unfold freshPath. rewrite Hg.
  now destruct (nth_error _ 0).
Qed.

Lemma staticPath_is_first_animated_path_witness :
  staticPath (imports := SpecImports)
    {| static_points := [Examples.threePoints; Examples.fivePoints];
       static_range := None;
       lineThickness := 0 |} 100 50
  = option_map
      (freshPath (imports := SpecImports)
         (Examples.graphOf [Examples.threePoints; Examples.fivePoints] false))
      (nth_error (createGraphPathProps (imports := SpecImports)
                    (Examples.graphOf [Examples.threePoints; Examples.fivePoints]
                       false) 100 50) 0).
Proof.
  refine (proj2 (staticPath_is_first_animated_path (imports := SpecImports)
                   {| static_points := [Examples.threePoints; Examples.fivePoints];
                      static_range := None;
                      lineThickness := 0 |}
                   (Examples.graphOf [Examples.threePoints; Examples.fivePoints]
                      false) 100 50 _ _ _ _ _)); reflexivity.
Defined.

(* ================================================================== *)
(** ** Every state the component reaches *)

Lemma resetPathEnds_fold {imports : GraphImports}
  (props : AnimatedLineGraphProps) (indices : list nat) :
  NoDup indices ->
  forall st,
    let st' :=
      fold_left
        (fun st index =>
           if negb (length (nth index (pointsInRanges props) []) =? 0)%nat
              && negb (length (commands st index) =? 0)%nat
           then with_pathEnds st (setCell (pathEnds st) index (Fin 1))
           else st)
        indices st in
    curveCells st' = curveCells st
    /\ (forall j, ~ In j indices -> pathEnds st' j = pathEnds st j)
    /\ (forall index, In index indices ->
          pathEnds st' index
          = if negb (length (nth index (pointsInRanges props) []) =? 0)%nat
               && negb (length (commands st index) =? 0)%nat
            then Fin 1 else pathEnds st index).
Proof.
  induction 1 as [|a indices Ha Hnd IH]; intros st; cbn [fold_left].
  - repeat split; auto. contradiction.
  - match goal with
    | |- context [fold_left _ indices ?s] => set (st1 := s)
    end.
    assert (curveCells st1 = curveCells st) as Hc
        by (subst st1; destruct (_ && _); reflexivity).
    assert (forall j, j <> a -> pathEnds st1 j = pathEnds st j) as Hother.
    { intros j Hj. subst st1. destruct (_ && _); [|reflexivity].
      cbn [pathEnds with_pathEnds]. now apply setCell_other. }
    assert (pathEnds st1 a
            = if negb (length (nth a (pointsInRanges props) []) =? 0)%nat
                 && negb (length (commands st a) =? 0)%nat
              then Fin 1 else pathEnds st a) as Ha1.
    { subst st1. destruct (_ && _); [|reflexivity].
      cbn [pathEnds with_pathEnds]. apply setCell_same. }
    destruct (IH st1) as (F1 & F2 & F3).
    assert (commands st1 = commands st) as Hcmd
        by (unfold curveCells in Hc; congruence).
    split; [congruence|]. split.
    + intros j Hj. rewrite F2 by (intros Hin; apply Hj; now right).
      apply Hother. intros ->. apply Hj. now left.
    + intros index [<-|Hin].
      * now rewrite (F2 a Ha).
      * assert (index <> a) as Hne by (intros ->; contradiction).
        rewrite (F3 index Hin), Hcmd. now rewrite (Hother index Hne).
Qed.

(** In every state the component reaches, the pairs are well formed and
    the gradient pair has never been published. *)
Lemma reachable_invariant {imports : GraphImports} (st : GraphState) :
  Reachable st ->
  (forall i, pairOk (pathsValues st i) = true)
  /\ gradientPaths st = {| from := None; to := None |}.
Proof.
  induction 1 as [|props width height st _ [IH1 IH2]
                  |progresses st _ [IH1 IH2]
                  |props width isActive fingerX st _ [IH1 IH2]
                  |props st _ [IH1 IH2]].
  - split; reflexivity.
  - split.
    + now apply rebuild_keeps_pairs.
    + now rewrite rebuild_keeps_gradientPaths.
  - split; assumption.
  - assert (curveCells (onFingerX props width isActive fingerX st)
            = curveCells st) as Hc.
    { unfold onFingerX. destruct (isActive || truthy fingerX); [|reflexivity].
      now destruct (reaction_fold_effect props width isActive fingerX
                      (seq 0 (length (allPoints props))) (seq_NoDup _ _) st). }
    unfold curveCells in Hc. injection Hc as Hp Hg _ _.
    split; [intros i; now rewrite Hp|now rewrite Hg].
  - destruct (resetPathEnds_fold props (seq 0 (length (allPoints props)))
                (seq_NoDup _ _) st) as (Hc & _).
    fold (resetPathEnds props st) in Hc.
    unfold curveCells in Hc. injection Hc as Hp Hg _ _.
    split; [intros i; now rewrite Hp|now rewrite Hg].
Qed.

(** X1. In every state the component reaches, whatever the layout and the
    progress, the interpolation that gives a series' drawn path succeeds:
    the path handed to the canvas is never [null]. *)
Theorem reachable_paths_never_null {imports : GraphImports} (st : GraphState)
  (width height : Z) (index : nat) :
  Reachable st ->
  exists out, paths width height st index = Some out.
Proof.
  intros Hr. destruct (reachable_invariant st Hr) as (Hok & _).
  unfold paths. apply pairOk_interpolates, Hok.
Qed.

Lemma reachable_paths_never_null_witness :
  exists out, paths 60 40 Examples.midTransition 0%nat = Some out.
Proof.
  apply (reachable_paths_never_null (imports := SpecImports)
           Examples.midTransition 60 40 0%nat).
  unfold Examples.midTransition, Examples.atProgress.
  apply reach_driver, reach_rebuild, reach_driver, reach_rebuild, reach_initial.
Defined.

(** X2. In every state the component reaches, the gradient pair has never
    been published, so the gradient fill never follows the data: what is
    drawn has the verbs of the flat placeholder line of the current layout
    at every progress, and is that line when the progress of the first
    series is 0 or 1. *)
Theorem reachable_gradient_is_placeholder {imports : GraphImports}
  (st : GraphState) (width height : Z) :
  Reachable st ->
  gradientPaths st = {| from := None; to := None |}
  /\ exists out,
       gradientPathValue width height st = Some out
       /\ Skia.verbs out = Skia.verbs (straightLine width height)
       /\ (interpolateProgresses st 0%nat == 0
           \/ interpolateProgresses st 0%nat == 1 ->
           path_equiv out (straightLine width height)).
Proof.
  intros Hr. destruct (reachable_invariant st Hr) as (_ & Hg).
  split; [exact Hg|].
  unfold gradientPathValue. rewrite Hg. cbn [from to nullish].
  destruct (interpolate_structure (straightLine width height)
              (straightLine width height) (interpolateProgresses st 0%nat)
              (isInterpolatable_refl _)) as (out & Hout & Hverbs & H0 & H1).
  exists out. split; [exact Hout|]. split; [exact Hverbs|].
  intros [Hw|Hw]; auto.
Qed.

Lemma reachable_gradient_is_placeholder_witness :
  gradientPaths
    (stateOf (rebuild (imports := SpecImports)
                (Examples.graphOf [Examples.threePoints] true) 100 50
                initialState))
  = {| from := None; to := None |}
  /\ exists out,
       gradientPathValue 100 50
         (stateOf (rebuild (imports := SpecImports)
                     (Examples.graphOf [Examples.threePoints] true) 100 50
                     initialState)) = Some out
       /\ Skia.verbs out = Skia.verbs (straightLine 100 50)
       /\ (interpolateProgresses
             (stateOf (rebuild (imports := SpecImports)
                         (Examples.graphOf [Examples.threePoints] true) 100 50
                         initialState)) 0%nat == 0
           \/ interpolateProgresses
                (stateOf (rebuild (imports := SpecImports)
                            (Examples.graphOf [Examples.threePoints] true) 100 50
                            initialState)) 0%nat == 1 ->
           path_equiv out (straightLine 100 50)).
Proof.
  apply (reachable_gradient_is_placeholder (imports := SpecImports)).
  apply reach_rebuild, reach_initial.
Defined.

(* ================================================================== *)
(** ** A rebuild followed by what reads its cells *)

Section AfterRebuild.

Context {imports : GraphImports}.
Variable props : AnimatedLineGraphProps.
Variables width height : Z.

Lemma rebuild_completes_cells (st : GraphState) :
  measured width height -> noEmptySeries props = true ->
  shouldFillGradient props = false \/ length (allPoints props) = 1%nat ->
  exists st',
    rebuild props width height st = Returned st'
    /\ forall index cfg,
         nth_error (createGraphPathProps props width height) index = Some cfg ->
         pathsValues st' index =
         nextPair (freshPath props cfg)
           (fromValue width height (pathsValues st index)
              (interpolateProgresses st index))
         /\ commands st' index = Skia.toCmds (freshPath props cfg)
         /\ interpolateProgresses st' index = interpolateProgresses st index.
Proof.
  intros Hm Hne Hmode. unfold freshPath.
  destruct (shouldFillGradient props) eqn:Hg.
  - destruct Hmode as [|Hlen]; [discriminate|].
    apply (rebuild_single_gradient props width height st Hm Hne Hg Hlen).
  - apply (rebuild_stroke props width height st Hm Hne Hg).
Qed.


(** X4. After a hard cut (the fresh curve is not interpolatable with the
    computed [from]) nothing is left to animate: at every later progress
    the drawn path has the verbs of the fresh curve, and when the progress
    is 0 or 1 it is the fresh curve.  This holds whichever render the
    callback of the drawn path is from. *)
Theorem rebuild_hard_cut_draws_fresh (st : GraphState) (index : nat)
  (cfg : GraphPathConfig) (width0 height0 : Z) :
  measured width height -> noEmptySeries props = true ->
  shouldFillGradient props = false \/ length (allPoints props) = 1%nat ->
  nth_error (createGraphPathProps props width height) index = Some cfg ->
  Skia.isInterpolatable (freshPath props cfg)
    (fromValue width height (pathsValues st index)
       (interpolateProgresses st index)) = false ->
  exists st',
    rebuild props width height st = Returned st'
    /\ pathsValues st' index
       = {| from := Some (freshPath props cfg);
            to := Some (freshPath props cfg) |}
    /\ forall progresses,
       exists out,
         paths width0 height0 (with_interpolateProgresses st' progresses) index
         = Some out
         /\ Skia.verbs out = Skia.verbs (freshPath props cfg)
         /\ (progresses index == 0 \/ progresses index == 1 ->
             path_equiv out (freshPath props cfg)).
Proof.
  intros Hm Hne Hmode Hcfg Hcut.
  destruct (rebuild_completes_cells st Hm Hne Hmode) as (st' & Hrun & Hall).
  destruct (Hall index cfg Hcfg) as (Hpair & _ & _).
  unfold nextPair in Hpair. rewrite Hcut in Hpair.
  exists st'. split; [exact Hrun|]. split; [exact Hpair|].
  intros progresses.
  destruct (interpolate_structure (freshPath props cfg) (freshPath props cfg)
              (progresses index) (isInterpolatable_refl _))
    as (out & Hout & Hverbs & H0 & H1).
  exists out. split; [|split; [exact Hverbs|intros [Hw|Hw]; auto]].
  unfold paths. cbn [pathsValues interpolateProgresses with_interpolateProgresses].
  rewrite Hpair. exact Hout.
Qed.

(** X18. After a rebuild that completes, the commands the sampler reads for
    a series are those of the curve the series is moving to (the pair's
    [to]), not of the curve in flight; the rebuild itself leaves every
    progress at the value it had. *)
Theorem rebuild_commands_follow_target (st : GraphState) :
  measured width height -> noEmptySeries props = true ->
  shouldFillGradient props = false \/ length (allPoints props) = 1%nat ->
  exists st',
    rebuild props width height st = Returned st'
    /\ forall index, (index < length (allPoints props))%nat ->
         exists target,
           to (pathsValues st' index) = Some target
           /\ commands st' index = Skia.toCmds target
           /\ interpolateProgresses st' index = interpolateProgresses st index.
Proof.
  intros Hm Hne Hmode.
  destruct (rebuild_completes_cells st Hm Hne Hmode) as (st' & Hrun & Hall).
  exists st'. split; [exact Hrun|]. intros index Hlt.
  destruct (nth_error (createGraphPathProps props width height) index)
    as [cfg|] eqn:Hcfg.
  - destruct (Hall index cfg Hcfg) as (Hpair & Hcmd & Hkept).
    exists (freshPath props cfg). split; [|split; assumption].
    rewrite Hpair. unfold nextPair.
    now destruct (Skia.isInterpolatable _ _).
  - apply nth_error_None in Hcfg.
    rewrite createGraphPathProps_length in Hcfg. lia.
Qed.

Lemma noEmptySeries_nth (index : nat) :
  noEmptySeries props = true ->
  (index < length (allPoints props))%nat ->
  (length (nth index (pointsInRanges props) []) =? 0)%nat = false.
Proof.
  intros Hne Hlt. unfold noEmptySeries in Hne.
  rewrite forallb_forall in Hne.
  assert (In (nth index (pointsInRanges props) []) (pointsInRanges props)) as Hin.
  { apply nth_In. unfold pointsInRanges. now rewrite mapi_length. }
  specialize (Hne _ Hin).
  destruct (nth index (pointsInRanges props) []); [discriminate|reflexivity].
Qed.

(** X14. When the builder gives no empty path, a rebuild that completes,
    followed by the effect that restores [pathEnds], leaves every series'
    line fully highlighted: a data update clears what a pan had dimmed. *)
Theorem rebuild_then_reset_highlights_all (st : GraphState) :
  measured width height -> noEmptySeries props = true ->
  shouldFillGradient props = false \/ length (allPoints props) = 1%nat ->
  (forall cfg, In cfg (createGraphPathProps props width height) ->
     freshPath props cfg <> []) ->
  exists st',
    rebuild props width height st = Returned st'
    /\ forall index, (index < length (allPoints props))%nat ->
         pathEnds (resetPathEnds props st') index = Fin 1.
Proof.
  intros Hm Hne Hmode Hbuilt.
  destruct (rebuild_completes_cells st Hm Hne Hmode) as (st' & Hrun & Hall).
  exists st'. split; [exact Hrun|]. intros index Hlt.
  destruct (resetPathEnds_fold props (seq 0 (length (allPoints props)))
              (seq_NoDup _ _) st') as (_ & _ & Hin).
  fold (resetPathEnds props st') in Hin.
  rewrite Hin by (apply in_seq; lia).
  rewrite (noEmptySeries_nth index Hne Hlt).
  destruct (nth_error (createGraphPathProps props width height) index)
    as [cfg|] eqn:Hcfg.
  - destruct (Hall index cfg Hcfg) as (_ & Hcmd & _). rewrite Hcmd.
    unfold Skia.toCmds.
    destruct (freshPath props cfg) eqn:Hp; [|reflexivity].
    exfalso. apply (Hbuilt cfg); [|exact Hp].
    eapply nth_error_In, Hcfg.
  - apply nth_error_None in Hcfg.
    rewrite createGraphPathProps_length in Hcfg. lia.
Qed.

End AfterRebuild.


Lemma rebuild_hard_cut_draws_fresh_witness :
  exists st',
    rebuild (imports := SpecImports) (Examples.graphOf [Examples.fourPoints] false)
      60 50 Examples.midTransition = Returned st'
    /\ pathsValues st' 0%nat
       = {| from := Some (freshPath (imports := SpecImports)
                            (Examples.graphOf [Examples.fourPoints] false)
                            (Examples.configOf Examples.fourPoints 60 50));
            to := Some (freshPath (imports := SpecImports)
                          (Examples.graphOf [Examples.fourPoints] false)
                          (Examples.configOf Examples.fourPoints 60 50)) |}
    /\ forall progresses,
       exists out,
         paths 0 0 (with_interpolateProgresses st' progresses) 0%nat = Some out
         /\ Skia.verbs out
            = Skia.verbs (freshPath (imports := SpecImports)
                            (Examples.graphOf [Examples.fourPoints] false)
                            (Examples.configOf Examples.fourPoints 60 50))
         /\ (progresses 0%nat == 0 \/ progresses 0%nat == 1 ->
             path_equiv out
               (freshPath (imports := SpecImports)
                  (Examples.graphOf [Examples.fourPoints] false)
                  (Examples.configOf Examples.fourPoints 60 50))).
Proof.
  apply (rebuild_hard_cut_draws_fresh (imports := SpecImports)
           (Examples.graphOf [Examples.fourPoints] false) 60 50
           Examples.midTransition 0%nat
           (Examples.configOf Examples.fourPoints 60 50) 0 0);
    try (vm_compute; reflexivity).
  - split; lia.
  - left. reflexivity.
Defined.

Lemma rebuild_commands_follow_target_witness :
  exists st',
    rebuild (imports := SpecImports)
      (Examples.graphOf [Examples.threePoints; Examples.fivePoints] false)
      100 50 Examples.midTransition = Returned st'
    /\ forall index, (index < 2)%nat ->
         exists target,
           to (pathsValues st' index) = Some target
           /\ commands st' index = Skia.toCmds target
           /\ interpolateProgresses st' index
              = interpolateProgresses Examples.midTransition index.
Proof.
  apply (rebuild_commands_follow_target (imports := SpecImports)
           (Examples.graphOf [Examples.threePoints; Examples.fivePoints] false)
           100 50 Examples.midTransition).
  - split; lia.
  - reflexivity.
  - left. reflexivity.
Defined.

Lemma rebuild_then_reset_highlights_all_witness :
  pathEnds Examples.panned 0%nat = Fin (50 / inject_Z 100)
  /\ pathEnds Examples.panned 1%nat = Fin (50 / inject_Z 100)
  /\ exists st',
       rebuild (imports := SpecImports)
         (Examples.graphOf [Examples.threePoints; Examples.fivePoints] false)
         100 50 Examples.panned = Returned st'
       /\ forall index, (index < 2)%nat ->
            pathEnds
              (resetPathEnds (imports := SpecImports)
                 (Examples.graphOf [Examples.threePoints; Examples.fivePoints]
                    false)
                 st') index = Fin 1.
Proof.
  split; [vm_compute; reflexivity|]. split; [vm_compute; reflexivity|].
  apply (rebuild_then_reset_highlights_all (imports := SpecImports)
           (Examples.graphOf [Examples.threePoints; Examples.fivePoints] false)
           100 50 Examples.panned).
  - split; lia.
  - reflexivity.
  - left. reflexivity.
  - intros cfg Hin. vm_compute in Hin.
    destruct Hin as [<-|[<-|[]]]; vm_compute; discriminate.
Defined.

(* ================================================================== *)
(** ** One series: the callback fires on change *)

Lemma jsIntEq_eq (a b : JsInt) : jsIntEq a b = true -> a = b.
Proof.
  destruct a, b; cbn; try discriminate; try reflexivity.
  intros H. apply Z.eqb_eq in H. now subst.
Qed.

(** The run of one selection on a series with a point in range. *)
Lemma setFingerPoints_run {imports : GraphImports}
  (props : AnimatedLineGraphProps) (width : Z) (index : nat) (fingerX : Q)
  (lastPoint : GraphPoint) (st : GraphState) :
  let points := nth index (pointsInRanges props) [] in
  let pointIndex := pointIndexOf props width index fingerX lastPoint in
  nth_error points (length points - 1) = Some lastPoint ->
  pointSelectedIndex (stateOf (setFingerPoints props width index fingerX st))
  = Some pointIndex
  /\ selected (stateOf (setFingerPoints props width index fingerX st))
     = selected st
       ++ (if strictNeq (pointSelectedIndex st) pointIndex then
             match arrayAt points pointIndex with
             | Some dp => if onPointSelected props then [(dp, index)] else []
             | None => []
             end
           else []).
Proof.
  intros points pointIndex Hlast.
  unfold setFingerPoints. fold points. rewrite Hlast. fold pointIndex.
  destruct (strictNeq (pointSelectedIndex st) pointIndex) eqn:Hneq.
  - destruct (arrayAt points pointIndex) as [dp|];
      [destruct (onPointSelected props)|];
      cbn; rewrite ?app_nil_r; split; reflexivity.
  - cbn. rewrite app_nil_r. split; [|reflexivity].
    now apply strictNeq_false.
Qed.

(** X19. With a single series that has a point in range, two pointer
    reactions in a row behave as the callback's contract says: the second
    one makes no call when it selects the index the first one selected, and
    when it selects another index it calls the callback once, with the
    sample at that index. *)
Theorem single_series_reports_changes {imports : GraphImports}
  (props : AnimatedLineGraphProps) (width : Z) (x1 x2 : Q)
  (lastPoint : GraphPoint) (st : GraphState) :
  let points := nth 0 (pointsInRanges props) [] in
  let index1 := pointIndexOf props width 0 x1 lastPoint in
  let index2 := pointIndexOf props width 0 x2 lastPoint in
  let first := onFingerX props width true x1 st in
  let second := onFingerX props width true x2 first in
  length (allPoints props) = 1%nat ->
  nth_error points (length points - 1) = Some lastPoint ->
  pointSelectedIndex first = Some index1
  /\ (index2 = index1 -> index1 <> INaN -> selected second = selected first)
  /\ (index2 <> index1 ->
      selected second
      = selected first
        ++ match arrayAt points index2 with
           | Some dp => if onPointSelected props then [(dp, 0%nat)] else []
           | None => []
           end).
Proof.
  intros points index1 index2 first second Hlen Hlast.
  assert (forall x s,
            onFingerX props width true x s
            = stateOf (setFingerPoints props width 0 x
                         (setFingerXs width true 0 x s))) as Hone.
  { intros x s. unfold onFingerX. now rewrite Hlen. }
  assert (forall x s,
            pointSelectedIndex (setFingerXs width true 0 x s)
            = pointSelectedIndex s
            /\ selected (setFingerXs width true 0 x s) = selected s) as Hxs.
  { intros x s. unfold setFingerXs.
    destruct (getYForX (commands s 0%nat) x); split; reflexivity. }
  destruct (setFingerPoints_run props width 0%nat x1 lastPoint
              (setFingerXs width true 0 x1 st) Hlast) as (R1 & _).
  destruct (setFingerPoints_run props width 0%nat x2 lastPoint
              (setFingerXs width true 0 x2 first) Hlast) as (_ & S2).
  fold points index1 in R1. fold points index2 in S2.
  rewrite <- Hone in R1. rewrite <- Hone in S2. fold first in R1.
  fold second in S2.
  destruct (Hxs x2 first) as (Hp & Hs). rewrite Hp, Hs, R1 in S2.
  split; [exact R1|]. split.
  - intros Heq Hnan. rewrite S2, Heq, (strictNeq_same _ Hnan).
    apply app_nil_r.
  - intros Hne. rewrite S2.
    assert (strictNeq (Some index1) index2 = true) as ->; [|reflexivity].
    cbn. apply negb_true_iff.
    destruct (jsIntEq index1 index2) eqn:E; [|reflexivity].
    apply jsIntEq_eq in E. congruence.
Qed.

Lemma single_series_reports_changes_witness :
  pointSelectedIndex
    (onFingerX (imports := SpecImports)
       (Examples.graphOf [Examples.threePoints] false) 100 true 50 initialState)
  = Some (IntZ 1)
  /\ (IntZ 1 = IntZ 1 -> IntZ 1 <> INaN ->
      selected
        (onFingerX (imports := SpecImports)
           (Examples.graphOf [Examples.threePoints] false) 100 true 51
           (onFingerX (imports := SpecImports)
              (Examples.graphOf [Examples.threePoints] false) 100 true 50
              initialState))
      = selected
          (onFingerX (imports := SpecImports)
             (Examples.graphOf [Examples.threePoints] false) 100 true 50
             initialState))
  /\ (IntZ 1 <> IntZ 1 ->
      selected
        (onFingerX (imports := SpecImports)
           (Examples.graphOf [Examples.threePoints] false) 100 true 51
           (onFingerX (imports := SpecImports)
              (Examples.graphOf [Examples.threePoints] false) 100 true 50
              initialState))
      = selected
          (onFingerX (imports := SpecImports)
             (Examples.graphOf [Examples.threePoints] false) 100 true 50
             initialState)
        ++ [(Examples.sample 1 20, 0%nat)]).
Proof.
  apply (single_series_reports_changes (imports := SpecImports)
           (Examples.graphOf [Examples.threePoints] false) 100 50 51
           (Examples.sample 2 10) initialState).
  - reflexivity.
  - vm_compute. reflexivity.
Defined.

(* ================================================================== *)
(** ** When a rebuild can raise *)

Lemma filter_nil_forallb {A : Type} (f : A -> bool) (xs : list A) :
  filter f xs = [] -> forallb (fun x => negb (f x)) xs = true.
Proof.
  induction xs as [|x xs IH]; cbn; [reflexivity|].
  destruct (f x); [discriminate|]. exact IH.
Qed.

(** X20. Without gradient fill, or with a single series, a rebuild never
    raises: it returns, having done nothing when a guard stops it and
    having published every series otherwise. *)
Theorem rebuild_returns_without_gradient {imports : GraphImports}
  (props : AnimatedLineGraphProps) (width height : Z) (st : GraphState) :
  shouldFillGradient props = false \/ length (allPoints props) = 1%nat ->
  exists st', rebuild props width height st = Returned st'.
Proof.
  intros Hmode.
  destruct ((height <? 1)%Z || (width <? 1)%Z) eqn:Hdim.
  - exists st. unfold rebuild. now rewrite Hdim.
  - destruct (filter (fun points => (length points <? 1)%nat)
                     (pointsInRanges props)) as [|points rest] eqn:Hf.
    + apply orb_false_elim in Hdim as [Hh Hw].
      apply Z.ltb_ge in Hh, Hw.
      destruct (rebuild_completes props width height st) as (st' & Hrun & _);
        eauto.
      * split; assumption.
      * unfold noEmptySeries. now apply filter_nil_forallb.
    + exists st. unfold rebuild. now rewrite Hdim, Hf.
Qed.

Lemma rebuild_returns_without_gradient_witness :
  exists st',
    rebuild (imports := SpecImports)
      (Examples.graphOf [Examples.threePoints; Examples.fivePoints] false)
      0 0 Examples.midTransition = Returned st'.
Proof.
  apply (rebuild_returns_without_gradient (imports := SpecImports)
           (Examples.graphOf [Examples.threePoints; Examples.fivePoints] false)
           0 0 Examples.midTransition).
  left. reflexivity.
Defined.
